(** * A shallow embedding of [deepseek_bot.py]

    The bot keeps two pieces of process-wide state: the dictionary
    [conversation_histories] (channel id to list of turns) and the string
    [DEEPSEEK_MODEL].  Handlers are coroutines that read and write that
    state, post one HTTP request and call [ctx.send].  They are embedded
    here as computations of a small state/exception/trace monad [Bot]. *)

From Stdlib Require Import QArith.
From stdpp Require Import gmap strings list fin_maps.

From Stdlib Require Import Ascii.

Local Open Scope nat_scope.
Set Warnings "-register-all".

(** ** Python values *)

(** What [response.json()] can return, and what a turn's ["content"] can
    therefore hold.  [JObj] lists the items of the decoded [dict] (keys
    distinct); [JNum] keeps the number as it is written. *)
Inductive PyVal : Type :=
  | JNull
  | JBool (b : bool)
  | JNum (literal : string)
  | JStr (s : string)
  | JArr (items : list PyVal)
  | JObj (fields : list (string * PyVal)).

Inductive Exn : Type :=
  | RequestException
  | KeyError
  | IndexError
  | TypeError
  | ValueError
  | RecursionError.

Inductive Result (A : Type) : Type :=
  | Returned (a : A)
  | Raised (e : Exn).
Arguments Returned {A} a.
Arguments Raised {A} e.

(** ** Sequences *)

(** [l[i:j]] for [0 <= i <= j]; Python clamps both ends to [len(l)]. *)
Definition py_slice {A} (l : list A) (i j : nat) : list A :=
  take (j - i) (drop i l).

(** [l[-n:]] for [n > 0]: the start index [len(l) - n] is clamped to 0
    (truncated subtraction). *)
Definition py_last {A} (n : nat) (l : list A) : list A :=
  drop (length l - n) l.

(** [range(0, stop, step)] for [step > 0]. *)
Definition py_range (stop step : nat) : list nat :=
  (λ k, k * step) <$> seq 0 ((stop + step - 1) / step).

(** ** Turns and the conversation store *)

Inductive Role : Type := user | assistant.

Record Turn : Type := mkTurn { role : Role; content : PyVal }.

(** The two dictionaries appended by one exchange (lines 79-82). *)
Definition exchange (user_message : string) (assistant_response : PyVal)
  : list Turn :=
  [ mkTurn user (JStr user_message); mkTurn assistant assistant_response ].

(** [conversation_histories.get(channel_id, [])] *)
Definition get_history (hs : gmap Z (list Turn)) (channel_id : Z) : list Turn :=
  default [] (hs !! channel_id).

(** [update_conversation_history] as a function of the dictionary it
    mutates: the three statements of lines 75-86 in order. *)
Definition update_conversation_history
    (channel_id : Z) (user_message : string) (assistant_response : PyVal)
    (hs : gmap Z (list Turn)) : gmap Z (list Turn) :=
  let hs1 :=
    match hs !! channel_id with
    | Some _ => hs
    | None => <[channel_id := []]> hs
    end in
  let hs2 :=
    alter (λ h, h ++ exchange user_message assistant_response) channel_id hs1 in
  match hs2 !! channel_id with
  | Some h =>
      if 20 <? length h then <[channel_id := py_last 20 h]> hs2 else hs2
  | None => hs2
  end.

(** A run of [append] calls on one channel, oldest first. *)
Definition appends (channel_id : Z) (ps : list (string * PyVal))
    (hs : gmap Z (list Turn)) : gmap Z (list Turn) :=
  foldl (λ acc p, update_conversation_history channel_id p.1 p.2 acc) hs ps.

(** Every turn those calls appended, in the order of appending. *)
Definition appended (ps : list (string * PyVal)) : list Turn :=
  ps ≫= (λ p, exchange p.1 p.2).

(** ** Strings *)

(** [len(s)] counts characters; a character is modelled by an [ascii]. *)
Definition str_slice (s : string) (i j : nat) : string :=
  String.string_of_list_ascii (py_slice (String.list_ascii_of_string s) i j).

(** [str.isspace] on one character (code points below 256). *)
Definition py_isspace (c : ascii) : bool :=
  let n := nat_of_ascii c in
  ((9 <=? n) && (n <=? 13)) || ((28 <=? n) && (n <=? 32))
  || (n =? 133) || (n =? 160).

Fixpoint lstrip (s : string) : string :=
  match s with
  | String c s' => if py_isspace c then lstrip s' else s
  | EmptyString => EmptyString
  end.

(** [s.strip()] *)
Definition strip (s : string) : string :=
  String.rev (lstrip (String.rev (lstrip s))).

(** ** Subscripts, [len] and slices of a decoded value *)

Global Instance Result_ret : MRet Result := λ A a, Returned a.
Global Instance Result_bind : MBind Result := λ A B f m,
  match m with
  | Returned a => f a
  | Raised e => Raised e
  end.

Fixpoint dict_get (fields : list (string * PyVal)) (key : string)
  : option PyVal :=
  match fields with
  | [] => None
  | (k, v) :: rest => if String.eqb k key then Some v else dict_get rest key
  end.

(** [v[key]] for a string key: a missing key raises [KeyError]; a list or
    a string wants an integer index and anything else is not
    subscriptable, both [TypeError]. *)
Definition getitem_key (v : PyVal) (key : string) : Result PyVal :=
  match v with
  | JObj fields =>
      match dict_get fields key with
      | Some x => Returned x
      | None => Raised KeyError
      end
  | _ => Raised TypeError
  end.

(** [v[0]]: the first element of a list or the first character of a
    string, [IndexError] when there is none; a decoded object has string
    keys only, so [0] is a [KeyError] there. *)
Definition getitem_0 (v : PyVal) : Result PyVal :=
  match v with
  | JArr (x :: _) => Returned x
  | JArr [] => Raised IndexError
  | JStr (String c _) => Returned (JStr (String c EmptyString))
  | JStr EmptyString => Raised IndexError
  | JObj _ => Raised KeyError
  | _ => Raised TypeError
  end.

(** [len(v)] *)
Definition py_len (v : PyVal) : Result nat :=
  match v with
  | JStr s => Returned (String.length s)
  | JArr items => Returned (length items)
  | JObj fields => Returned (length fields)
  | _ => Raised TypeError
  end.

(** [v[i:j]]; a [dict] cannot be sliced (a [TypeError] up to CPython
    3.11, a [KeyError] from 3.12 on: the model follows the former). *)
Definition py_getslice (v : PyVal) (i j : nat) : Result PyVal :=
  match v with
  | JStr s => Returned (JStr (str_slice s i j))
  | JArr items => Returned (JArr (py_slice items i j))
  | _ => Raised TypeError
  end.

(** ** The process state and the effects of a handler *)

Record World : Type := mkWorld {
  conversation_histories : gmap Z (list Turn);
  DEEPSEEK_MODEL : string;
  DEEPSEEK_API_KEY : option string
}.

Definition DEEPSEEK_API_URL : string :=
  "https://api.deepseek.com/v1/chat/completions".

Record Payload : Type := mkPayload {
  model : string;
  messages : list Turn;
  temperature : Q;
  max_tokens : Z
}.

(** What reaches the dispatcher's error hook: discord.py raises
    [MissingRequiredArgument] itself while it parses the arguments, and
    wraps whatever a callback raises in [CommandInvokeError]. *)
Inductive CommandError : Type :=
  | MissingRequiredArgument
  | CommandInvokeError (original : Exn).

Inductive Event : Type :=
  | Typing (channel_id : Z)
      (* entering [async with ctx.typing()] *)
  | Post (url : string) (headers : list (string * string)) (json : Payload)
      (* one call of [requests.post] *)
  | Print (prefix : string) (e : Exn)
      (* [print(f"<prefix>{e}")] *)
  | Stored (histories : gmap Z (list Turn))
      (* a mutation of [conversation_histories]; the dictionary after it *)
  | Send (channel_id : Z) (content : PyVal)
      (* [await ctx.send(content)]: the call; what the platform then does
         with the message is not part of the model *)
  | SendError (channel_id : Z) (error : CommandError).
      (* [await ctx.send(f"An error occurred: {error}")] *)

(** A handler: from the state before, to what it returns or raises, the
    state after, and the effects in the order they happened. *)
Definition Bot (A : Type) : Type := World → Result A * World * list Event.

Global Instance Bot_ret : MRet Bot := λ A a w, (Returned a, w, []).
Global Instance Bot_bind : MBind Bot := λ A B f m w,
  match m w with
  | (Returned a, w1, t1) =>
      match f a w1 with
      | (r, w2, t2) => (r, w2, t1 ++ t2)
      end
  | (Raised e, w1, t1) => (Raised e, w1, t1)
  end.

Definition emit (ev : Event) : Bot unit := λ w, (Returned tt, w, [ev]).

Definition gets {A} (f : World → A) : Bot A := λ w, (Returned (f w), w, []).

Definition lift {A} (r : Result A) : Bot A := λ w, (r, w, []).

(** [try: body  except ...: handler]; a handler re-raises what its
    [except] clauses do not name. *)
Definition try_except {A} (body : Bot A) (handler : Exn → Bot A) : Bot A :=
  λ w,
  match body w with
  | (Raised e, w1, t1) =>
      match handler e w1 with
      | (r, w2, t2) => (r, w2, t1 ++ t2)
      end
  | done => done
  end.

(** Assigning into, or deleting from, [conversation_histories]. *)
Definition store (f : gmap Z (list Turn) → gmap Z (list Turn)) : Bot unit :=
  λ w,
  let hs := f (conversation_histories w) in
  (Returned tt, mkWorld hs (DEEPSEEK_MODEL w) (DEEPSEEK_API_KEY w), [Stored hs]).

(** [global DEEPSEEK_MODEL; DEEPSEEK_MODEL = model_name] *)
Definition assign_model (model_name : string) : Bot unit :=
  λ w,
  (Returned tt,
   mkWorld (conversation_histories w) model_name (DEEPSEEK_API_KEY w), []).

Definition send (channel_id : Z) (content : PyVal) : Bot unit :=
  emit (Send channel_id content).

Fixpoint for_each {A} (l : list A) (body : A → Bot unit) : Bot unit :=
  match l with
  | [] => mret tt
  | x :: rest => body x;; for_each rest body
  end.

(** ** The completion service as the client sees it *)

(** The body of a response, by what [response.json()] makes of it: it
    decodes to a value; it is not JSON (an empty body included); or it is
    JSON that [json.loads] refuses with a fault of its own, an integer
    literal longer than the interpreter's digit limit or nesting deeper
    than the recursion limit. *)
Inductive Body : Type :=
  | Json (v : PyVal)
  | NotJson
  | DigitsOverLimit
  | NestedTooDeep.

(** A response of the service: its status and its body. *)
Record Response : Type := mkResponse {
  status_code : Z;
  body : Body
}.

(** What [requests.post] does with one request: it raises (connection
    refused, timeout, too many redirects, ...: all subclasses of
    [RequestException]) or it returns a response. *)
Inductive PostOutcome : Type :=
  | PostRaises
  | PostReturns (response : Response).

Definition requests_post (url : string) (headers : list (string * string))
    (json : Payload) (net : PostOutcome) : Bot Response :=
  emit (Post url headers json);;
  match net with
  | PostRaises => lift (Raised RequestException)
  | PostReturns response => mret response
  end.

(** [Response.raise_for_status]: [HTTPError], a [RequestException], for
    the 4xx and 5xx statuses and nothing for any other status. *)
Definition raise_for_status (response : Response) : Result unit :=
  if ((400 <=? status_code response) && (status_code response <? 600))%Z
  then Raised RequestException
  else Returned tt.

(** [Response.json]: a body that is not JSON raises
    [requests.exceptions.JSONDecodeError], a [RequestException]; the two
    faults [json.loads] raises besides its [JSONDecodeError] are passed on
    as they are, a plain [ValueError] and a [RecursionError]. *)
Definition response_json (response : Response) : Result PyVal :=
  match body response with
  | Json v => Returned v
  | NotJson => Raised RequestException
  | DigitsOverLimit => Raised ValueError
  | NestedTooDeep => Raised RecursionError
  end.

Definition contacting_error : string :=
  "Sorry, I encountered an error while contacting DeepSeek API.".

Definition parsing_error : string :=
  "Sorry, I had trouble understanding the response from DeepSeek.".

(** [f"Bearer {DEEPSEEK_API_KEY}"]; an unset variable formats as [None]. *)
Definition bearer (key : option string) : string :=
  String.app "Bearer " (default "None" key).

(** [result['choices'][0]['message']['content']] *)
Definition first_choice_content (result : PyVal) : Result PyVal :=
  choices ← getitem_key result "choices";
  choice ← getitem_0 choices;
  message ← getitem_key choice "message";
  getitem_key message "content".

(** The request body built on lines 38-52. *)
Definition build_payload (DEEPSEEK_MODEL : string) (message_content : string)
    (conversation_history : option (list Turn)) : Payload :=
  let messages := [] in
  let messages :=
    match conversation_history with
    | Some ((_ :: _) as h) => messages ++ h
    | _ => messages
    end in
  let messages := messages ++ [mkTurn user (JStr message_content)] in
  {| model := DEEPSEEK_MODEL;
     messages := messages;
     temperature := 0.7%Q;
     max_tokens := 2000%Z |}.

Definition call_deepseek_api (message_content : string)
    (conversation_history : option (list Turn)) (net : PostOutcome)
  : Bot PyVal :=
  key ← gets DEEPSEEK_API_KEY;
  let headers :=
    [("Authorization", bearer key); ("Content-Type", "application/json")] in
  current_model ← gets DEEPSEEK_MODEL;
  let payload := build_payload current_model message_content conversation_history in
  try_except
    (response ← requests_post DEEPSEEK_API_URL headers payload net;
     lift (raise_for_status response);;
     result ← lift (response_json response);
     lift (first_choice_content result))
    (λ e,
     match e with
     | RequestException =>
         emit (Print "API Request Error: " e);;
         mret (JStr contacting_error)
     | KeyError | IndexError =>
         emit (Print "API Response Parsing Error: " e);;
         mret (JStr parsing_error)
     | _ => lift (Raised e)
     end).

(** ** Command handlers *)

(** [[response[i:i+2000] for i in range(0, len(response), 2000)]] *)
Definition chunks_of (response : PyVal) (n : nat) : Result (list PyVal) :=
  mapM (λ i, py_getslice response i (i + 2000)) (py_range n 2000).

Definition ask_deepseek (ctx : Z) (question : string) (net : PostOutcome)
  : Bot unit :=
  emit (Typing ctx);;
  hs ← gets conversation_histories;
  let history := get_history hs ctx in
  response ← call_deepseek_api question (Some history) net;
  store (update_conversation_history ctx question response);;
  n ← lift (py_len response);
  if 2000 <? n then
    chunks ← lift (chunks_of response n);
    for_each chunks (λ chunk, send ctx chunk)
  else
    send ctx response.

Definition clear_history (ctx : Z) : Bot unit :=
  hs ← gets conversation_histories;
  match hs !! ctx with
  | Some _ =>
      store (delete ctx);;
      send ctx (JStr "Conversation history cleared!")
  | None =>
      send ctx (JStr "No conversation history to clear.")
  end.

Definition set_model (ctx : Z) (model_name : string) : Bot unit :=
  assign_model model_name;;
  send ctx (JStr (String.app "Model set to: " model_name)).

Definition help_text : string := "
**DeepSeek Discord Bot Commands:**
`!ask <question>` - Ask DeepSeek a question
`!clear` - Clear conversation history for this channel
`!model <model_name>` - Change the DeepSeek model
`!help` - Show this help message

**Example:** `!ask What is artificial intelligence?`
".

Definition bot_help (ctx : Z) : Bot unit :=
  send ctx (JStr help_text).

Definition usage_hint : string :=
  "Please provide a question after the command. Example: `!ask What is AI?`".

Definition on_command_error (ctx : Z) (error : CommandError) : Bot unit :=
  match error with
  | MissingRequiredArgument => send ctx (JStr usage_hint)
  | _ => emit (SendError ctx error)
  end.

(** ** The dispatcher of discord.py around the handlers *)

(** A keyword-only parameter ([*, question]) takes the rest of the
    message: the library skips leading white space, raises
    [MissingRequiredArgument] if nothing is left, and otherwise passes
    the rest, stripped. *)
Definition consume_rest (rest : string) : option string :=
  match lstrip rest with
  | EmptyString => None
  | remaining => Some (strip remaining)
  end.

(** One command message in a channel, after the prefix and the command
    name were recognised.  [Ask] carries the text after the name and the
    service's answer to the request the handler may post; [Model] carries
    the first word after the name, if there is one. *)
Inductive Invocation : Type :=
  | Ask (rest : string) (net : PostOutcome)
  | Clear
  | Model (model_name : option string)
  | Help.

(** Binding the arguments and running the callback. *)
Definition callback (ctx : Z) (inv : Invocation)
  : CommandError + Bot unit :=
  match inv with
  | Ask rest net =>
      match consume_rest rest with
      | Some question => inr (ask_deepseek ctx question net)
      | None => inl MissingRequiredArgument
      end
  | Clear => inr (clear_history ctx)
  | Model (Some model_name) => inr (set_model ctx model_name)
  | Model None => inl MissingRequiredArgument
  | Help => inr (bot_help ctx)
  end.

(** A fault of either stage goes to [on_command_error]. *)
Definition invoke (ctx : Z) (inv : Invocation) : Bot unit :=
  match callback ctx inv with
  | inl error => on_command_error ctx error
  | inr handler =>
      try_except handler (λ e, on_command_error ctx (CommandInvokeError e))
  end.

(** A session: command messages handled one after the other.  A handler
    yields to the event loop only on entering [ctx.typing()] and at each
    [ctx.send] ([requests.post] blocks), so nothing runs between its
    reading of the state and its writes. *)
Fixpoint session (msgs : list (Z * Invocation)) (w : World)
  : World * list Event :=
  match msgs with
  | [] => (w, [])
  | (ctx, inv) :: rest =>
      match invoke ctx inv w with
      | (_, w1, t1) =>
          match session rest w1 with
          | (w2, t2) => (w2, t1 ++ t2)
          end
      end
  end.

(** ** Observations on a trace *)

Definition sent (t : list Event) : list (Z * PyVal) :=
  t ≫= (λ ev, match ev with Send c v => [(c, v)] | _ => [] end).

Definition posted (t : list Event) : list Payload :=
  t ≫= (λ ev, match ev with Post _ _ p => [p] | _ => [] end).

(** The texts among what was sent, in the order of sending. *)
Definition texts (msgs : list (Z * PyVal)) : list string :=
  msgs ≫= (λ m, match m.2 with JStr c => [c] | _ => [] end).

Definition is_send (ev : Event) : bool :=
  match ev with Send _ _ => true | _ => false end.

Definition is_stored (ev : Event) : bool :=
  match ev with Stored _ => true | _ => false end.

(** ** Notions used in the statements *)

(** A history made of (user, assistant) pairs. *)
Fixpoint alternating (h : list Turn) : bool :=
  match h with
  | [] => true
  | u :: a :: rest =>
      match role u, role a with
      | user, assistant => alternating rest
      | _, _ => false
      end
  | [_] => false
  end.

(** Every channel's history is made of pairs. *)
Definition paired (hs : gmap Z (list Turn)) : Prop :=
  ∀ ch, alternating (get_history hs ch) = true.

(** The state of a freshly started process: no history in any channel. *)
Definition started (model_name : string) (key : option string) : World :=
  mkWorld ∅ model_name key.

(** What the completion client gives the ask handler in channel [ctx]. *)
Definition completion (ctx : Z) (question : string) (net : PostOutcome)
    (w : World) : Result PyVal :=
  (call_deepseek_api question
     (Some (get_history (conversation_histories w) ctx)) net w).1.1.

(** The effects of a handler run from [w], and the state it leaves. *)
Definition trace {A} (m : Bot A) (w : World) : list Event := (m w).2.
Definition after {A} (m : Bot A) (w : World) : World := (m w).1.2.

(** Effects that leave the store and the channel alone. *)
Definition is_print (ev : Event) : bool :=
  match ev with Print _ _ => true | _ => false end.

(** A status for which [raise_for_status] raises. *)
Definition error_status (status : Z) : Prop := (400 ≤ status < 600)%Z.

(** The order of the store update and the sends within one trace. *)
Definition stored_after_sends (t : list Event) : Prop :=
  ∀ i j hs c v, t !! i = Some (Stored hs) → t !! j = Some (Send c v) → j < i.

Definition stored_before_sends (t : list Event) : Prop :=
  ∀ i j hs c v, t !! i = Some (Stored hs) → t !! j = Some (Send c v) → i < j.

Definition is_model (inv : Invocation) : bool :=
  match inv with Model _ => true | _ => false end.

(** The slices of a text of more than 2000 characters, as the
    comprehension of line 111 takes them, and the text a list of chunks
    spells when read in order. *)
Definition slices (response : string) : list string :=
  (λ i, str_slice response i (i + 2000)) <$> py_range (String.length response) 2000.

Definition join (chunks : list string) : string :=
  foldr String.app EmptyString chunks.

(** The sends of the ask handler for a reply that is the text [r]. *)
Definition text_sends (ctx : Z) (r : string) : list Event :=
  Send ctx <$> (JStr <$> (if 2000 <? String.length r then slices r else [r])).

(** ** Sample inputs *)

(** A body of the shape the service documents, and the service returning
    it with status 200. *)
Definition well_formed_body (text : string) : PyVal :=
  JObj [("id", JStr "cmpl-1");
        ("choices",
         JArr [JObj [("index", JNum "0");
                     ("message",
                      JObj [("role", JStr "assistant");
                            ("content", JStr text)])]])].

Definition answers (text : string) : PostOutcome :=
  PostReturns (mkResponse 200 (Json (well_formed_body text))).

(** A text of [n] characters. *)
Definition text_of_length (n : nat) : string :=
  String.string_of_list_ascii (replicate n "a"%char).

(** Eleven exchanges, one more than a history holds. *)
Definition eleven_exchanges : list (string * PyVal) :=
  (λ i, (text_of_length i, JStr (text_of_length (100 + i)))) <$> seq 0 11.

(** A process with a history in channels 1 and 2 and none elsewhere. *)
Definition two_channels : World :=
  mkWorld (<[1%Z := exchange "a" (JStr "b")]>
             (<[2%Z := exchange "c" (JStr "d")]> ∅))
          "deepseek-chat" (Some "sk-test").

(** The text after the command name holds no argument. *)
Definition blank (rest : string) : Prop := lstrip rest = EmptyString.

(** ** Notions used for whole commands and sessions *)


(** The request cannot be completed: [requests.post],
    [raise_for_status] or [response.json()] raises. *)
Definition transport_fails (net : PostOutcome) : Prop :=
  match net with
  | PostRaises => True
  | PostReturns response =>
      error_status (status_code response) ∨ body response = NotJson
  end.

(** The run stays within what the two [except] clauses name: the
    request fails in transport, or the body decodes and no lookup meets a
    value of the wrong type. *)
Definition handled (net : PostOutcome) : Prop :=
  transport_fails net
  ∨ ∃ response result,
      net = PostReturns response
      ∧ body response = Json result
      ∧ first_choice_content result ≠ Raised TypeError.

(** A value [len()] does not accept. *)
Definition unsized (v : PyVal) : Prop :=
  match v with
  | JNull | JBool _ | JNum _ => True
  | _ => False
  end.

(** The name given by the last model command of a session, [current] if
    there is none. *)
Fixpoint last_model (msgs : list (Z * Invocation)) (current : string)
  : string :=
  match msgs with
  | [] => current
  | (_, Model (Some model_name)) :: rest => last_model rest model_name
  | _ :: rest => last_model rest current
  end.

(** The command is an ask with a question. *)
Definition has_question (inv : Invocation) : bool :=
  match inv with
  | Ask rest _ => match consume_rest rest with Some _ => true | None => false end
  | _ => false
  end.

(** Every history holds at most 20 turns. *)
Definition bounded (hs : gmap Z (list Turn)) : Prop :=
  ∀ ch, length (get_history hs ch) ≤ 20.

(** A body whose first choice has [null] for content, and one whose
    [choices] is [null]. *)
Definition null_content_body : PyVal :=
  JObj [("choices",
         JArr [JObj [("message",
                      JObj [("role", JStr "assistant");
                            ("content", JNull)])]])].

Definition null_choices_body : PyVal := JObj [("choices", JNull)].

(** * Properties of the store *)

Section Sequences.
Context {A : Type}.
Implicit Types l k : list A.

Lemma py_last_short n l : length l ≤ n → py_last n l = l.
Proof.
  intros Hle. unfold py_last.
  replace (length l - n) with 0 by lia. done.
Qed.

Lemma length_py_last n l : length (py_last n l) = length l `min` n.
Proof. unfold py_last. rewrite length_drop. lia. Qed.

Lemma py_last_app n l k : py_last n (py_last n l ++ k) = py_last n (l ++ k).
Proof.
  destruct (decide (length l ≤ n)) as [Hle|Hgt].
  - by rewrite (py_last_short n l Hle).
  - unfold py_last at 1 3.
    rewrite !length_app, length_py_last.
    unfold py_last. rewrite !drop_app, drop_drop, length_drop.
    f_equal; f_equal; lia.
Qed.

Lemma length_py_range stop step :
  length (py_range stop step) = (stop + step - 1) / step.
Proof. unfold py_range. by rewrite length_fmap, length_seq. Qed.

Lemma lookup_py_range stop step (k : nat) :
  k < (stop + step - 1) / step → py_range stop step !! k = Some (k * step).
Proof.
  intros Hk. unfold py_range.
  rewrite list_lookup_fmap, lookup_seq_lt by done. done.
Qed.

Lemma py_range_covers stop step :
  0 < step → stop ≤ (stop + step - 1) / step * step.
Proof.
  intros Hstep.
  pose proof (Nat.div_mod_eq (stop + step - 1) step) as Hdiv.
  pose proof (Nat.mod_upper_bound (stop + step - 1) step) as Hmod.
  nia.
Qed.

Lemma length_py_slice l i j :
  length (py_slice l i j) = (j - i) `min` (length l - i).
Proof. unfold py_slice. by rewrite length_take, length_drop. Qed.

(** The first [k] windows of width [c] make up the first [k * c]
    elements. *)
Lemma windows_take l c (k : nat) :
  concat ((λ i, py_slice l i (i + c)) <$> ((λ j, j * c) <$> seq 0 k))
  = take (k * c) l.
Proof.
  induction k as [|k IH]; [done|].
  rewrite seq_S, !fmap_app, concat_app, IH. simpl.
  rewrite app_nil_r. unfold py_slice.
  replace (k * c + c - k * c) with c by lia.
  rewrite take_take_drop. f_equal. lia.
Qed.

Lemma windows_concat l c :
  0 < c →
  concat ((λ i, py_slice l i (i + c)) <$> py_range (length l) c) = l.
Proof.
  intros Hc. unfold py_range. rewrite windows_take.
  apply take_ge. by apply py_range_covers.
Qed.
End Sequences.

Section Strings.
Implicit Types s : string.

Lemma length_string_of_list (l : list ascii) :
  String.length (String.string_of_list_ascii l) = length l.
Proof. induction l as [|c l IH]; simpl; congruence. Qed.

Lemma length_list_of_string s :
  length (String.list_ascii_of_string s) = String.length s.
Proof. induction s as [|c s IH]; simpl; congruence. Qed.

Lemma string_of_list_app (l k : list ascii) :
  String.string_of_list_ascii (l ++ k)
  = String.app (String.string_of_list_ascii l) (String.string_of_list_ascii k).
Proof. induction l as [|c l IH]; simpl; [done|]. by rewrite IH. Qed.

Lemma length_str_slice s i j :
  String.length (str_slice s i j) = (j - i) `min` (String.length s - i).
Proof.
  unfold str_slice.
  by rewrite length_string_of_list, length_py_slice, length_list_of_string.
Qed.

Lemma join_string_of_list (ls : list (list ascii)) :
  join (String.string_of_list_ascii <$> ls)
  = String.string_of_list_ascii (concat ls).
Proof.
  induction ls as [|l ls IH]; simpl; [done|].
  by rewrite string_of_list_app, <- IH.
Qed.

Lemma join_slices s : join (slices s) = s.
Proof.
  unfold slices.
  transitivity
    (join (String.string_of_list_ascii <$>
             ((λ i, py_slice (String.list_ascii_of_string s) i (i + 2000))
                <$> py_range (String.length s) 2000))).
  { by rewrite <- list_fmap_compose. }
  rewrite join_string_of_list, <- length_list_of_string.
  rewrite windows_concat by lia.
  apply String.string_of_list_ascii_of_string.
Qed.

Lemma length_slices s : length (slices s) = (String.length s + 1999) / 2000.
Proof.
  unfold slices. rewrite length_fmap, length_py_range. f_equal. lia.
Qed.

Lemma lookup_slices s k :
  k < length (slices s) →
  slices s !! k = Some (str_slice s (k * 2000) (k * 2000 + 2000)).
Proof.
  rewrite length_slices. intros Hk. unfold slices.
  rewrite list_lookup_fmap, lookup_py_range; [done|].
  by replace (String.length s + 2000 - 1) with (String.length s + 1999) by lia.
Qed.

Lemma slices_bounded s : Forall (λ c, String.length c ≤ 2000) (slices s).
Proof.
  unfold slices. apply Forall_fmap, Forall_forall. intros i _. simpl.
  rewrite length_str_slice. lia.
Qed.
End Strings.

Section Store.
Implicit Types hs : gmap Z (list Turn).
Implicit Types h : list Turn.

Lemma lookup_update_eq ch q r hs :
  update_conversation_history ch q r hs !! ch
  = Some (py_last 20 (get_history hs ch ++ exchange q r)).
Proof.
  unfold update_conversation_history, get_history.
  destruct (hs !! ch) as [h0|] eqn:Hch; simpl.
  - rewrite lookup_alter_eq, Hch. simpl.
    destruct (20 <? length (h0 ++ exchange q r)) eqn:Hlen.
    + by rewrite lookup_insert_eq.
    + apply Nat.ltb_ge in Hlen.
      rewrite lookup_alter_eq, Hch. simpl.
      by rewrite py_last_short.
  - rewrite lookup_alter_eq, lookup_insert_eq. simpl.
    rewrite lookup_alter_eq, lookup_insert_eq. simpl.
    by rewrite py_last_short by (simpl; lia).
Qed.

Lemma lookup_update_ne ch ch' q r hs :
  ch ≠ ch' → update_conversation_history ch q r hs !! ch' = hs !! ch'.
Proof.
  intros Hne. unfold update_conversation_history.
  destruct (hs !! ch) as [h0|] eqn:Hch; simpl.
  - rewrite lookup_alter_eq, Hch. simpl.
    destruct (20 <? _).
    + by rewrite lookup_insert_ne, lookup_alter_ne.
    + by rewrite lookup_alter_ne.
  - rewrite lookup_alter_eq, lookup_insert_eq. simpl.
    by rewrite lookup_alter_ne, lookup_insert_ne.
Qed.

Lemma get_history_update_eq ch q r hs :
  get_history (update_conversation_history ch q r hs) ch
  = py_last 20 (get_history hs ch ++ exchange q r).
Proof. unfold get_history at 1. by rewrite lookup_update_eq. Qed.

Lemma get_history_update_ne ch ch' q r hs :
  ch ≠ ch' →
  get_history (update_conversation_history ch q r hs) ch' = get_history hs ch'.
Proof. intros Hne. unfold get_history. by rewrite lookup_update_ne. Qed.

Lemma appended_snoc ps q r :
  appended (ps ++ [(q, r)]) = appended ps ++ exchange q r.
Proof.
  unfold appended. by rewrite bind_app, bind_singleton.
Qed.

Lemma appends_snoc ch ps q r hs :
  appends ch (ps ++ [(q, r)]) hs
  = update_conversation_history ch q r (appends ch ps hs).
Proof. unfold appends. by rewrite foldl_app. Qed.

(** After at least one append the history is the last 20 of everything
    the channel was ever given. *)
Lemma get_history_appends ch ps hs :
  ps ≠ [] →
  get_history (appends ch ps hs) ch
  = py_last 20 (get_history hs ch ++ appended ps).
Proof.
  induction ps as [|[q r] ps IH] using rev_ind; [done|]. intros _.
  rewrite appends_snoc, appended_snoc, get_history_update_eq.
  destruct ps as [|p ps].
  - done.
  - rewrite IH by done. by rewrite py_last_app, app_assoc.
Qed.

Lemma alternating_app h1 h2 :
  alternating h1 = true → alternating (h1 ++ h2) = alternating h2.
Proof.
  revert h1.
  cut (∀ h1, (alternating h1 = true → alternating (h1 ++ h2) = alternating h2)
             ∧ ∀ t, alternating (t :: h1) = true →
                    alternating (t :: h1 ++ h2) = alternating h2).
  { intros Hboth h1. apply Hboth. }
  induction h1 as [|a h1 [IH0 IH1]]; split.
  - done.
  - done.
  - apply IH1.
  - intros t. simpl. by destruct (role t), (role a).
Qed.

Lemma alternating_exchange q r : alternating (exchange q r) = true.
Proof. done. Qed.

Lemma alternating_drop h k :
  alternating h = true → alternating (drop (2 * k) h) = true.
Proof.
  revert h. induction k as [|k IH]; intros h Hh; [done|].
  replace (2 * S k) with (S (S (2 * k))) by lia.
  destruct h as [|u [|a h]]; try done.
  simpl in *. destruct (role u), (role a); try done.
  by apply IH.
Qed.

Lemma alternating_even h : alternating h = true → Nat.Even (length h).
Proof.
  cut (∀ h, (alternating h = true → Nat.Even (length h))
            ∧ ∀ t, alternating (t :: h) = true → Nat.Even (S (length h))).
  { intros Hboth. apply Hboth. }
  clear h. induction h as [|a h [IH0 IH1]]; split.
  - intros _. by exists 0.
  - done.
  - apply IH1.
  - intros t. simpl. destruct (role t), (role a); try done.
    intros Hh. destruct (IH0 Hh) as [k Hk]. exists (S k). lia.
Qed.

(** The entries [l[-20:]] drops from a history of pairs that has just
    been given one more pair are whole pairs. *)
Lemma py_last_whole_pairs h q r :
  alternating h = true →
  ∃ k, py_last 20 (h ++ exchange q r) = drop (2 * k) (h ++ exchange q r).
Proof.
  intros Hh. destruct (alternating_even h Hh) as [n Hn].
  exists (n - 9). unfold py_last. f_equal.
  rewrite length_app. simpl. lia.
Qed.

Lemma alternating_update ch ch' q r hs :
  paired hs →
  alternating (get_history (update_conversation_history ch q r hs) ch') = true.
Proof.
  intros Hhs. destruct (decide (ch = ch')) as [<-|Hne].
  - rewrite get_history_update_eq.
    destruct (py_last_whole_pairs (get_history hs ch) q r (Hhs ch)) as [k ->].
    apply alternating_drop. by rewrite alternating_app.
  - by rewrite get_history_update_ne.
Qed.

Lemma paired_update ch q r hs :
  paired hs → paired (update_conversation_history ch q r hs).
Proof. intros Hhs ch'. by apply alternating_update. Qed.

Lemma paired_delete ch hs : paired hs → paired (delete ch hs).
Proof.
  intros Hhs ch'. unfold get_history.
  destruct (decide (ch = ch')) as [<-|Hne].
  - by rewrite lookup_delete_eq.
  - rewrite lookup_delete_ne by done. apply Hhs.
Qed.

Lemma paired_empty : paired ∅.
Proof. intros ch. unfold get_history. by rewrite lookup_empty. Qed.
End Store.

(** * The completion client *)

Ltac run_bot :=
  cbv [mbind mret Bot_bind Bot_ret Result_bind Result_ret emit gets lift
       try_except store requests_post assign_model].

Section Client.
Implicit Types w : World.
Implicit Types net : PostOutcome.

Lemma raise_for_status_error response :
  error_status (status_code response) →
  raise_for_status response = Raised RequestException.
Proof.
  unfold error_status, raise_for_status. intros [Hlo Hhi].
  apply Z.leb_le in Hlo. apply Z.ltb_lt in Hhi. by rewrite Hlo, Hhi.
Qed.

Lemma raise_for_status_pass response :
  ¬ error_status (status_code response) →
  raise_for_status response = Returned tt.
Proof.
  unfold error_status, raise_for_status. intros Hno.
  destruct (400 <=? _)%Z eqn:Hlo; [|done].
  destruct (_ <? 600)%Z eqn:Hhi; [|done].
  apply Z.leb_le in Hlo. apply Z.ltb_lt in Hhi. lia.
Qed.

Lemma first_choice_content_no_choices fields :
  dict_get fields "choices" = None →
  first_choice_content (JObj fields) = Raised KeyError.
Proof.
  intros Hnone. unfold first_choice_content, getitem_key.
  by rewrite Hnone.
Qed.

Lemma first_choice_content_no_choice result :
  getitem_key result "choices" = Returned (JArr []) →
  first_choice_content result = Raised IndexError.
Proof. intros Hchoices. unfold first_choice_content. by rewrite Hchoices. Qed.

Lemma raise_for_status_cases response :
  raise_for_status response = Raised RequestException
  ∨ raise_for_status response = Returned tt.
Proof. unfold raise_for_status. destruct (_ && _); auto. Qed.

(** One call posts one request, leaves the state as it was, and
    besides that only prints. *)
Lemma call_deepseek_api_run q h net w :
  ∃ r headers prints,
    call_deepseek_api q h net w
    = (r, w,
       Post DEEPSEEK_API_URL headers (build_payload (DEEPSEEK_MODEL w) q h)
         :: prints)
    ∧ Forall (λ ev, is_print ev = true) prints.
Proof.
  unfold call_deepseek_api. run_bot.
  destruct net as [|response]; simpl.
  { eexists _, _, _. split; [reflexivity|]. by repeat constructor. }
  destruct (raise_for_status response) as [[]|e]; simpl.
  - destruct (response_json response) as [result|e]; simpl.
    + destruct (first_choice_content result) as [v|[]]; simpl;
        (eexists _, _, _; split; [reflexivity|]; by repeat constructor).
    + destruct e; simpl;
        (eexists _, _, _; split; [reflexivity|]; by repeat constructor).
  - destruct e; simpl;
      (eexists _, _, _; split; [reflexivity|]; by repeat constructor).
Qed.

Lemma posted_prints prints :
  Forall (λ ev, is_print ev = true) prints → posted prints = [].
Proof.
  induction 1 as [|ev prints Hev _ IH]; [done|].
  unfold posted in *. rewrite bind_cons, IH. by destruct ev.
Qed.

Lemma sent_prints prints :
  Forall (λ ev, is_print ev = true) prints → sent prints = [].
Proof.
  induction 1 as [|ev prints Hev _ IH]; [done|].
  unfold sent in *. rewrite bind_cons, IH. by destruct ev.
Qed.

Lemma messages_build_payload m q h :
  messages (build_payload m q h) = default [] h ++ [mkTurn user (JStr q)].
Proof. destruct h as [[|t h]|]; reflexivity. Qed.
End Client.

(** * The handlers *)

Section Handlers.
Implicit Types w : World.
Implicit Types net : PostOutcome.

Lemma mapM_returned {A B} (f : A → B) (l : list A) :
  mapM (M:=Result) (λ x, Returned (f x)) l = Returned (f <$> l).
Proof.
  induction l as [|x l IH]; [done|].
  simpl. rewrite IH. done.
Qed.

Lemma chunks_of_text r n :
  chunks_of (JStr r) n
  = Returned (JStr <$> ((λ i, str_slice r i (i + 2000)) <$> py_range n 2000)).
Proof.
  unfold chunks_of. rewrite <- list_fmap_compose.
  apply (mapM_returned (λ i, JStr (str_slice r i (i + 2000)))).
Qed.

Lemma for_each_send ctx (vs : list PyVal) w :
  for_each vs (λ chunk, send ctx chunk) w = (Returned tt, w, Send ctx <$> vs).
Proof.
  induction vs as [|v vs IH]; [done|].
  cbn [for_each]. unfold mbind, Bot_bind.
  change (send ctx v w) with (Returned tt, w, [Send ctx v]).
  cbn beta iota. by rewrite IH.
Qed.

Lemma ask_deepseek_raised ctx q net w e :
  completion ctx q net w = Raised e →
  ∃ headers prints,
    ask_deepseek ctx q net w
    = (Raised e, w,
       Typing ctx
         :: Post DEEPSEEK_API_URL headers
              (build_payload (DEEPSEEK_MODEL w) q
                 (Some (get_history (conversation_histories w) ctx)))
         :: prints)
    ∧ Forall (λ ev, is_print ev = true) prints.
Proof.
  unfold completion, ask_deepseek.
  destruct (call_deepseek_api_run q
              (Some (get_history (conversation_histories w) ctx)) net w)
    as (r0 & headers & prints & Hrun & Hprints).
  run_bot. rewrite Hrun. simpl. intros ->.
  by exists headers, prints.
Qed.

Lemma ask_deepseek_text ctx q net w r :
  completion ctx q net w = Returned (JStr r) →
  let hs := update_conversation_history ctx q (JStr r)
              (conversation_histories w) in
  ∃ headers prints,
    ask_deepseek ctx q net w
    = (Returned tt,
       mkWorld hs (DEEPSEEK_MODEL w) (DEEPSEEK_API_KEY w),
       Typing ctx
         :: (Post DEEPSEEK_API_URL headers
               (build_payload (DEEPSEEK_MODEL w) q
                  (Some (get_history (conversation_histories w) ctx)))
               :: prints)
         ++ Stored hs :: text_sends ctx r)
    ∧ Forall (λ ev, is_print ev = true) prints.
Proof.
  unfold completion, ask_deepseek, text_sends.
  destruct (call_deepseek_api_run q
              (Some (get_history (conversation_histories w) ctx)) net w)
    as (r0 & headers & prints & Hrun & Hprints).
  run_bot. rewrite Hrun. cbn [fst snd]. intros ->.
  exists headers, prints. split; [|done].
  cbn [py_len]. destruct (2000 <? String.length r) eqn:Hlen.
  - rewrite chunks_of_text. fold (slices r).
    rewrite for_each_send. done.
  - done.
Qed.

Lemma ask_deepseek_returned ctx q net w v :
  completion ctx q net w = Returned v →
  let hs := update_conversation_history ctx q v (conversation_histories w) in
  ∃ headers prints res vs,
    ask_deepseek ctx q net w
    = (res,
       mkWorld hs (DEEPSEEK_MODEL w) (DEEPSEEK_API_KEY w),
       Typing ctx
         :: (Post DEEPSEEK_API_URL headers
               (build_payload (DEEPSEEK_MODEL w) q
                  (Some (get_history (conversation_histories w) ctx)))
               :: prints)
         ++ Stored hs :: (Send ctx <$> vs))
    ∧ Forall (λ ev, is_print ev = true) prints.
Proof.
  unfold completion, ask_deepseek.
  destruct (call_deepseek_api_run q
              (Some (get_history (conversation_histories w) ctx)) net w)
    as (r0 & headers & prints & Hrun & Hprints).
  run_bot. rewrite Hrun. cbn [fst snd]. intros ->.
  exists headers, prints.
  destruct (py_len v) as [n|e]; [|by exists (Raised e), []].
  destruct (2000 <? n).
  - destruct (chunks_of v n) as [cs|e]; [|by exists (Raised e), []].
    rewrite for_each_send. by exists (Returned tt), cs.
  - by exists (Returned tt), [v].
Qed.

Lemma posted_app t1 t2 : posted (t1 ++ t2) = posted t1 ++ posted t2.
Proof. apply bind_app. Qed.

Lemma sent_app t1 t2 : sent (t1 ++ t2) = sent t1 ++ sent t2.
Proof. apply bind_app. Qed.

Lemma posted_sends ctx (vs : list PyVal) : posted (Send ctx <$> vs) = [].
Proof. by induction vs. Qed.

Lemma sent_sends ctx (vs : list PyVal) :
  sent (Send ctx <$> vs) = (λ v, (ctx, v)) <$> vs.
Proof.
  induction vs as [|v vs IH]; [done|].
  rewrite fmap_cons. unfold sent in *. rewrite bind_cons, IH. done.
Qed.

Lemma sent_cons_quiet ev t :
  is_send ev = false → sent (ev :: t) = sent t.
Proof. intros Hev. unfold sent. rewrite bind_cons. by destruct ev. Qed.

Lemma texts_of_texts ctx (cs : list string) :
  texts ((λ c, (ctx, JStr c)) <$> cs) = cs.
Proof.
  induction cs as [|c cs IH]; [done|].
  rewrite fmap_cons. unfold texts in *. by rewrite bind_cons, IH.
Qed.

Lemma posted_cons_quiet ev t :
  match ev with Post _ _ _ => False | _ => True end →
  posted (ev :: t) = posted t.
Proof. intros Hev. unfold posted. rewrite bind_cons. by destruct ev. Qed.

Lemma posted_post_prints url headers p prints :
  Forall (λ ev, is_print ev = true) prints →
  posted (Post url headers p :: prints) = [p].
Proof.
  intros Hprints. unfold posted. rewrite bind_cons.
  fold (posted prints). by rewrite posted_prints.
Qed.

Lemma posted_ask_trace ctx url headers p prints hs (vs : list PyVal) :
  Forall (λ ev, is_print ev = true) prints →
  posted (Typing ctx :: (Post url headers p :: prints)
            ++ Stored hs :: (Send ctx <$> vs)) = [p].
Proof.
  intros Hprints.
  rewrite (posted_cons_quiet (Typing ctx)), posted_app by done.
  rewrite posted_post_prints, (posted_cons_quiet (Stored hs)) by done.
  by rewrite posted_sends.
Qed.

(** What one command can do to the state, and which requests it posts. *)
Lemma invoke_effect ctx inv w :
  let w' := after (invoke ctx inv) w in
  DEEPSEEK_API_KEY w' = DEEPSEEK_API_KEY w
  ∧ (is_model inv = false → DEEPSEEK_MODEL w' = DEEPSEEK_MODEL w)
  ∧ Forall (λ p, model p = DEEPSEEK_MODEL w)
      (posted (trace (invoke ctx inv) w))
  ∧ (paired (conversation_histories w) → paired (conversation_histories w')).
Proof.
  unfold after, trace, invoke.
  destruct inv as [rest net| |[name|]|]; cbn [callback is_model].
  - destruct (consume_rest rest) as [q|]; [|by repeat split].
    unfold try_except.
    destruct (completion ctx q net w) as [v|e] eqn:Hc.
    + destruct (ask_deepseek_returned _ _ _ _ _ Hc)
        as (headers & prints & res & vs & -> & Hprints).
      pose proof (posted_ask_trace ctx DEEPSEEK_API_URL headers
                    (build_payload (DEEPSEEK_MODEL w) q
                       (Some (get_history (conversation_histories w) ctx)))
                    prints
                    (update_conversation_history ctx q v
                       (conversation_histories w)) vs Hprints) as Hposted.
      destruct res as [[]|e]; cbn [fst snd on_command_error emit].
      * repeat split; try done.
        -- rewrite Hposted. by repeat constructor.
        -- intros Hw. by apply paired_update.
      * repeat split; try done.
        -- rewrite posted_app, Hposted. by repeat constructor.
        -- intros Hw. by apply paired_update.
    + destruct (ask_deepseek_raised _ _ _ _ _ Hc)
        as (headers & prints & -> & Hprints).
      cbn [fst snd on_command_error emit]. repeat split; try done.
      rewrite posted_app.
      rewrite (posted_cons_quiet (Typing ctx)), posted_post_prints by done.
      by repeat constructor.
  - unfold try_except, clear_history. run_bot.
    destruct (conversation_histories w !! ctx); cbn; repeat split; try done.
    intros Hw. by apply paired_delete.
  - by repeat split.
  - by repeat split.
  - by repeat split.
Qed.

Lemma session_nil w : session [] w = (w, []).
Proof. done. Qed.

Lemma session_cons ctx inv msgs w :
  session ((ctx, inv) :: msgs) w
  = ((session msgs (after (invoke ctx inv) w)).1,
     trace (invoke ctx inv) w ++ (session msgs (after (invoke ctx inv) w)).2).
Proof.
  unfold after, trace. cbn [session].
  destruct (invoke ctx inv w) as [[res w1] t1]. cbn [fst snd].
  by destruct (session msgs w1).
Qed.

Lemma session_paired msgs w :
  paired (conversation_histories w) →
  paired (conversation_histories (session msgs w).1).
Proof.
  revert w. induction msgs as [|[ctx inv] msgs IH]; intros w Hw; [done|].
  rewrite session_cons. cbn [fst]. apply IH. by apply invoke_effect.
Qed.

Lemma session_model msgs w :
  Forall (λ m, is_model m.2 = false) msgs →
  DEEPSEEK_MODEL (session msgs w).1 = DEEPSEEK_MODEL w.
Proof.
  revert w. induction msgs as [|[ctx inv] msgs IH]; intros w Hmsgs; [done|].
  apply Forall_cons in Hmsgs as [Hinv Hmsgs].
  rewrite session_cons. cbn [fst]. rewrite IH by done.
  by apply invoke_effect.
Qed.

(** An ask that has a question posts exactly one request. *)
Lemma invoke_ask_posted ctx rest net q w :
  consume_rest rest = Some q →
  posted (trace (invoke ctx (Ask rest net)) w)
  = [build_payload (DEEPSEEK_MODEL w) q
       (Some (get_history (conversation_histories w) ctx))].
Proof.
  intros Hq. unfold trace, invoke. cbn [callback]. rewrite Hq.
  unfold try_except.
  destruct (completion ctx q net w) as [v|e] eqn:Hc.
  - destruct (ask_deepseek_returned _ _ _ _ _ Hc)
      as (headers & prints & res & vs & -> & Hprints).
    destruct res as [[]|e]; cbn [fst snd on_command_error emit].
    + by apply posted_ask_trace.
    + rewrite posted_app, posted_ask_trace by done. done.
  - destruct (ask_deepseek_raised _ _ _ _ _ Hc)
      as (headers & prints & -> & Hprints).
    cbn [fst snd on_command_error emit]. rewrite posted_app.
    rewrite (posted_cons_quiet (Typing ctx)), posted_post_prints by done.
    done.
Qed.

Lemma session_posted msgs w :
  Forall (λ m, is_model m.2 = false) msgs →
  Forall (λ p, model p = DEEPSEEK_MODEL w) (posted (session msgs w).2).
Proof.
  revert w. induction msgs as [|[ctx inv] msgs IH]; intros w Hmsgs.
  { constructor. }
  apply Forall_cons in Hmsgs as [Hinv Hmsgs].
  rewrite session_cons. cbn [snd]. rewrite posted_app.
  destruct (invoke_effect ctx inv w) as (_ & Hmodel & Hposted & _).
  apply Forall_app. split; [done|].
  rewrite <- (Hmodel Hinv). by apply IH.
Qed.
End Handlers.

(** * The conversation store: bound, pairing and frame *)

Section StoreClaims.
Implicit Types w : World.

(** C1: from a store where the channel has no history yet, after any
    sequence of appends on that channel (each adding the user turn and
    then the assistant turn) the channel holds at most 20 turns, and
    they are exactly the last 20 of all appended turns, in the order
    they were appended. *)
Theorem history_keeps_last_20 ch ps (hs : gmap Z (list Turn)) :
  hs !! ch = None →
  let h := get_history (appends ch ps hs) ch in
  length h ≤ 20
  ∧ h = drop (length (appended ps) - 20) (appended ps)
  ∧ length (appended ps) = 2 * length ps.
Proof.
  intros Hch h.
  assert (h = py_last 20 (appended ps)) as ->.
  { subst h. destruct ps as [|p ps].
    - unfold get_history. cbn. by rewrite Hch.
    - rewrite get_history_appends by done.
      unfold get_history at 1. by rewrite Hch. }
  split; [rewrite length_py_last; lia|]. split; [done|].
  clear. induction ps as [|p ps IH]; [done|].
  unfold appended in *. rewrite bind_cons, length_app, IH. simpl. lia.
Qed.

Lemma history_keeps_last_20_witness :
  (∅ : gmap Z (list Turn)) !! 7%Z = None
  ∧ let h := get_history (appends 7 eleven_exchanges ∅) 7 in
    length h ≤ 20
    ∧ h = drop (length (appended eleven_exchanges) - 20)
            (appended eleven_exchanges)
    ∧ length (appended eleven_exchanges) = 2 * length eleven_exchanges.
Proof.
  split; [reflexivity|].
  apply (history_keeps_last_20 7 eleven_exchanges ∅). reflexivity.
Defined.

(** C10: whatever commands a freshly started process has handled,
    every channel's history has even length and is made of consecutive
    (user, assistant) pairs starting with a user turn; and when the next
    append truncates, what it drops from the front is a whole number of
    pairs. *)
Theorem histories_stay_paired model_name key msgs ch :
  let hs := conversation_histories (session msgs (started model_name key)).1 in
  let h := get_history hs ch in
  alternating h = true
  ∧ Nat.Even (length h)
  ∧ ∀ q r, ∃ k,
      get_history (update_conversation_history ch q r hs) ch
      = drop (2 * k) (h ++ exchange q r).
Proof.
  intros hs h.
  assert (paired hs) as Hhs by (apply session_paired, paired_empty).
  split; [apply Hhs|]. split; [apply alternating_even, Hhs|].
  intros q r. rewrite get_history_update_eq.
  apply py_last_whole_pairs, Hhs.
Qed.

(** C6: clear on a channel that has a history removes that channel's
    entry and answers with the confirmation; on a channel without one it
    leaves the state as it is and answers that there is nothing to
    clear; either way no other channel's history changes. *)
Theorem clear_history_frame ctx w :
  let hs := conversation_histories w in
  let w' := after (clear_history ctx) w in
  let out := sent (trace (clear_history ctx) w) in
  (is_Some (hs !! ctx) →
     conversation_histories w' = delete ctx hs
     ∧ out = [(ctx, JStr "Conversation history cleared!")])
  ∧ (hs !! ctx = None →
     w' = w ∧ out = [(ctx, JStr "No conversation history to clear.")])
  ∧ conversation_histories w' !! ctx = None
  ∧ (∀ ch, ch ≠ ctx → conversation_histories w' !! ch = hs !! ch)
  ∧ DEEPSEEK_MODEL w' = DEEPSEEK_MODEL w.
Proof.
  unfold after, trace, clear_history. run_bot.
  destruct (conversation_histories w !! ctx) as [h|] eqn:Hctx; cbn.
  - repeat split; try done.
    + apply lookup_delete_eq.
    + intros ch Hch. by apply lookup_delete_ne.
  - repeat split; try done; by intros [? ?].
Qed.

Lemma clear_history_frame_witness :
  (is_Some (conversation_histories two_channels !! 1%Z)
   ∧ conversation_histories (after (clear_history 1) two_channels)
     = delete 1%Z (conversation_histories two_channels)
   ∧ sent (trace (clear_history 1) two_channels)
     = [(1%Z, JStr "Conversation history cleared!")]
   ∧ conversation_histories (after (clear_history 1) two_channels) !! 2%Z
     = Some (exchange "c" (JStr "d")))
  ∧ (conversation_histories two_channels !! 3%Z = None
     ∧ after (clear_history 3) two_channels = two_channels
     ∧ sent (trace (clear_history 3) two_channels)
       = [(3%Z, JStr "No conversation history to clear.")]).
Proof.
  split.
  - destruct (clear_history_frame 1 two_channels) as (Hsome & _ & _ & Hframe & _).
    assert (is_Some (conversation_histories two_channels !! 1%Z)) as Hhas.
    { exists (exchange "a" (JStr "b")). reflexivity. }
    split; [exact Hhas|].
    split; [apply (Hsome Hhas)|]. split; [apply (Hsome Hhas)|].
    rewrite (Hframe 2%Z); [reflexivity | lia].
  - destruct (clear_history_frame 3 two_channels) as (_ & Hnone & _).
    split; [reflexivity|]. apply Hnone. reflexivity.
Defined.
End StoreClaims.

(** * The completion client: request and failures *)

Section ClientClaims.
Implicit Types w : World.
Implicit Types net : PostOutcome.

(** C3: whatever the prompt and the prior turns (none, or an empty or
    non-empty list), the client posts one request whose messages are the
    prior turns in order followed by one user turn holding the prompt,
    whose model is the current model name, whose temperature is 0.7 and
    whose max_tokens is 2000. *)
Theorem request_is_history_then_prompt prompt prior net w :
  posted (trace (call_deepseek_api prompt prior net) w)
  = [ {| model := DEEPSEEK_MODEL w;
         messages := default [] prior ++ [mkTurn user (JStr prompt)];
         temperature := 0.7%Q;
         max_tokens := 2000%Z |} ].
Proof.
  unfold trace.
  destruct (call_deepseek_api_run prompt prior net w)
    as (r & headers & prints & -> & Hprints).
  cbn [snd]. rewrite posted_post_prints by done.
  f_equal. by destruct prior as [[|t h]|].
Qed.

Lemma getitem_key_raises v key e :
  getitem_key v key = Raised e → e = KeyError ∨ e = TypeError.
Proof.
  destruct v as [| | | | |fields]; cbn; try (intros [= <-]; by right).
  destruct (dict_get fields key); [done|]. intros [= <-]. by left.
Qed.

Lemma getitem_0_raises v e :
  getitem_0 v = Raised e → e = KeyError ∨ e = IndexError ∨ e = TypeError.
Proof.
  destruct v as [| | |[|c s]|[|x items]|fields]; cbn; try done;
    intros [= <-]; auto.
Qed.

(** The four lookups raise nothing but what subscripting raises. *)
Lemma first_choice_content_raises result e :
  first_choice_content result = Raised e →
  e = KeyError ∨ e = IndexError ∨ e = TypeError.
Proof.
  unfold first_choice_content, mbind, Result_bind.
  destruct (getitem_key result "choices") as [choices|e1] eqn:H1.
  - destruct (getitem_0 choices) as [choice|e2] eqn:H2.
    + destruct (getitem_key choice "message") as [message|e3] eqn:H3.
      * intros H4. apply getitem_key_raises in H4. tauto.
      * intros [= <-]. apply getitem_key_raises in H3. tauto.
    + intros [= <-]. by apply getitem_0_raises in H2.
  - intros [= <-]. apply getitem_key_raises in H1. tauto.
Qed.

Lemma call_deepseek_api_cases prompt prior net w :
  let reply := (call_deepseek_api prompt prior net w).1.1 in
  (net = PostRaises → reply = Returned (JStr contacting_error))
  ∧ (∀ response, net = PostReturns response →
       error_status (status_code response) ∨ body response = NotJson →
       reply = Returned (JStr contacting_error))
  ∧ (∀ response result, net = PostReturns response →
       ¬ error_status (status_code response) →
       body response = Json result →
       (∀ fields, result = JObj fields → dict_get fields "choices" = None →
          reply = Returned (JStr parsing_error))
       ∧ (getitem_key result "choices" = Returned (JArr []) →
          reply = Returned (JStr parsing_error))
       ∧ (∀ e, first_choice_content result = Raised e →
          e = KeyError ∨ e = IndexError →
          reply = Returned (JStr parsing_error))
       ∧ (∀ content, first_choice_content result = Returned content →
          reply = Returned content)).
Proof.
  unfold call_deepseek_api. run_bot.
  split; [by intros ->|]. split.
  - intros response -> [Hstatus|Hbody]; cbn.
    + by rewrite raise_for_status_error.
    + destruct (raise_for_status_cases response) as [-> | ->]; [done|].
      unfold response_json. by rewrite Hbody.
  - intros response result -> Hstatus Hbody. cbn.
    rewrite raise_for_status_pass by done.
    unfold response_json. rewrite Hbody. cbn.
    destruct (first_choice_content result) as [v|e] eqn:Hfirst;
      (split; [|split; [|split]]).
    1, 5: intros fields -> Hnone;
      rewrite (first_choice_content_no_choices fields Hnone) in Hfirst;
      by simplify_eq.
    1, 4: intros Hchoices;
      rewrite (first_choice_content_no_choice result Hchoices) in Hfirst;
      by simplify_eq.
    1, 3: intros e' ? [-> | ->]; by simplify_eq.
    1, 2: intros content ?; by simplify_eq.
Qed.

Lemma error_status_dec status : error_status status ∨ ¬ error_status status.
Proof. unfold error_status. lia. Qed.

(** C2, as the code has it: the call returns the contacting-error
    apology whenever the request raises a [RequestException], that is
    when the connection fails, when the status is a 4xx or 5xx one, or
    when the body is not JSON; every other status, 2xx or not, is read
    like a success.  For a decoded body it returns the parsing-error
    apology, a fixed text distinct from the first, when a key is missing
    from an object or the list of choices is empty ([KeyError],
    [IndexError]), and the content of the first choice when all four
    lookups succeed.  In all these cases the call returns and does not
    raise: it returns whenever the request fails in transport or the body
    decodes and no lookup meets a value of the wrong type. *)
Theorem client_failures_become_apologies prompt prior net w :
  let reply := (call_deepseek_api prompt prior net w).1.1 in
  contacting_error ≠ parsing_error
  ∧ (net = PostRaises → reply = Returned (JStr contacting_error))
  ∧ (∀ response, net = PostReturns response →
       error_status (status_code response) ∨ body response = NotJson →
       reply = Returned (JStr contacting_error))
  ∧ (∀ response result, net = PostReturns response →
       ¬ error_status (status_code response) →
       body response = Json result →
       (∀ fields, result = JObj fields → dict_get fields "choices" = None →
          reply = Returned (JStr parsing_error))
       ∧ (getitem_key result "choices" = Returned (JArr []) →
          reply = Returned (JStr parsing_error))
       ∧ (∀ e, first_choice_content result = Raised e →
          e = KeyError ∨ e = IndexError →
          reply = Returned (JStr parsing_error))
       ∧ (∀ content, first_choice_content result = Returned content →
          reply = Returned content))
  ∧ (handled net → ∃ v, reply = Returned v).
Proof.
  intros reply.
  destruct (call_deepseek_api_cases prompt prior net w)
    as (Hraises & Hfails & Hbody).
  fold reply in Hraises, Hfails, Hbody.
  split; [discriminate|]. split; [done|]. split; [done|]. split; [done|].
  intros [Hnet|(response & result & -> & Hjson & Htyped)].
  - destruct net as [|response]; [eauto|]. eauto.
  - destruct (error_status_dec (status_code response)) as [Hstatus|Hstatus].
    { eauto. }
    destruct (Hbody response result eq_refl Hstatus Hjson)
      as (_ & _ & Herror & Hcontent).
    destruct (first_choice_content result) as [v|e] eqn:Hfirst; [eauto|].
    destruct (first_choice_content_raises result e Hfirst) as [->|[->| ->]].
    + eauto.
    + eauto.
    + done.
Qed.

Lemma client_failures_become_apologies_witness :
  let w := started "deepseek-chat" (Some "sk-test") in
  (call_deepseek_api "hi" None PostRaises w).1.1
  = Returned (JStr contacting_error)
  ∧ (call_deepseek_api "hi" None
       (PostReturns (mkResponse 503 (Json (well_formed_body "up")))) w).1.1
    = Returned (JStr contacting_error)
  ∧ (call_deepseek_api "hi" None
       (PostReturns (mkResponse 200 (Json (JObj [("error", JStr "busy")])))) w).1.1
    = Returned (JStr parsing_error)
  ∧ (call_deepseek_api "hi" None
       (PostReturns (mkResponse 200 (Json (JObj [("choices", JArr [])])))) w).1.1
    = Returned (JStr parsing_error)
  ∧ (call_deepseek_api "hi" None (answers "hello") w).1.1
    = Returned (JStr "hello")
  ∧ (handled (PostReturns (mkResponse 200 NotJson))
     ∧ ∃ v, (call_deepseek_api "hi" None
               (PostReturns (mkResponse 200 NotJson)) w).1.1 = Returned v).
Proof.
  intros w.
  assert (¬ error_status 200) as Hok by (unfold error_status; lia).
  split.
  { destruct (client_failures_become_apologies "hi" None PostRaises w)
      as (_ & Hraises & _).
    apply Hraises. reflexivity. }
  split.
  { destruct (client_failures_become_apologies "hi" None
                (PostReturns (mkResponse 503 (Json (well_formed_body "up")))) w)
      as (_ & _ & Hstatus & _).
    apply (Hstatus _ eq_refl). left. unfold error_status. simpl. lia. }
  split.
  { destruct (client_failures_become_apologies "hi" None
                (PostReturns (mkResponse 200 (Json (JObj [("error", JStr "busy")])))) w)
      as (_ & _ & _ & Hbody & _).
    destruct (Hbody _ _ eq_refl Hok eq_refl) as (Hmissing & _).
    apply (Hmissing _ eq_refl). reflexivity. }
  split.
  { destruct (client_failures_become_apologies "hi" None
                (PostReturns (mkResponse 200 (Json (JObj [("choices", JArr [])])))) w)
      as (_ & _ & _ & Hbody & _).
    destruct (Hbody _ _ eq_refl Hok eq_refl) as (_ & Hempty & _).
    apply Hempty. reflexivity. }
  split.
  { destruct (client_failures_become_apologies "hi" None (answers "hello") w)
      as (_ & _ & _ & Hbody & _).
    destruct (Hbody _ _ eq_refl Hok eq_refl) as (_ & _ & _ & Hcontent).
    apply Hcontent. reflexivity. }
  assert (handled (PostReturns (mkResponse 200 NotJson))) as Hhandled.
  { left. right. reflexivity. }
  split; [exact Hhandled|].
  destruct (client_failures_become_apologies "hi" None
              (PostReturns (mkResponse 200 NotJson)) w)
    as (_ & _ & _ & _ & Hreturns).
  exact (Hreturns Hhandled).
Defined.

(** C2 as stated fails on the code in two ways.  A 300 answer, which
    [requests] hands over with its body, is a non-2xx status and yet is
    read like a success: the reply is the content of its first choice,
    not the contacting-error apology.  And a body whose [choices] is
    [null] makes the subscript raise [TypeError], which no [except]
    clause names, so the call raises. *)
Lemma client_reads_status_300_and_raises_on_null_choices :
  (call_deepseek_api "hi" None
     (PostReturns (mkResponse 300 (Json (well_formed_body "choose"))))
     (started "deepseek-chat" (Some "sk-test"))).1.1
  = Returned (JStr "choose")
  ∧ JStr "choose" ≠ JStr contacting_error
  ∧ (call_deepseek_api "hi" None
       (PostReturns (mkResponse 200 (Json (JObj [("choices", JNull)]))))
       (started "deepseek-chat" (Some "sk-test"))).1.1
    = Raised TypeError.
Proof. repeat split. discriminate. Qed.
End ClientClaims.

(** * The command handlers *)

Section HandlerClaims.
Implicit Types w : World.
Implicit Types net : PostOutcome.

Lemma sent_ask_text ctx q net w r :
  completion ctx q net w = Returned (JStr r) →
  sent (trace (ask_deepseek ctx q net) w)
  = (λ c, (ctx, JStr c)) <$> (if 2000 <? String.length r then slices r else [r]).
Proof.
  intros Hc. unfold trace.
  destruct (ask_deepseek_text ctx q net w r Hc)
    as (headers & prints & -> & Hprints).
  cbn [snd]. unfold text_sends.
  rewrite (sent_cons_quiet (Typing ctx)), sent_app by done.
  rewrite (sent_cons_quiet (Post _ _ _)), sent_prints by done.
  rewrite (sent_cons_quiet (Stored _)), sent_sends by done.
  by rewrite <- list_fmap_compose.
Qed.

(** C4: a reply text of more than 2000 characters goes out, to the
    channel of the command, as the slices [0:2000], [2000:4000], ... of
    the text, in that order, each of at most 2000 characters and all but
    the last of exactly 2000; a reply of 4500 characters goes out as
    chunks of 2000, 2000 and 500 characters; a reply of at most 2000
    characters goes out as one message. *)
Theorem ask_sends_fixed_size_chunks ctx q net w r :
  completion ctx q net w = Returned (JStr r) →
  let out := sent (trace (ask_deepseek ctx q net) w) in
  out = (λ c, (ctx, JStr c)) <$> texts out
  ∧ (String.length r ≤ 2000 → texts out = [r])
  ∧ (2000 < String.length r →
     texts out = slices r
     ∧ length (slices r) = (String.length r + 1999) / 2000
     ∧ (∀ k, k < length (slices r) →
          slices r !! k = Some (str_slice r (k * 2000) (k * 2000 + 2000)))
     ∧ Forall (λ c, String.length c ≤ 2000) (slices r)
     ∧ (∀ k c, S k < length (slices r) → slices r !! k = Some c →
          String.length c = 2000))
  ∧ (String.length r = 4500 →
     String.length <$> texts out = [2000; 2000; 500]).
Proof.
  intros Hc out. subst out. rewrite (sent_ask_text _ _ _ _ _ Hc).
  rewrite texts_of_texts.
  split; [done|]. split; [|split].
  - intros Hle. apply Nat.ltb_ge in Hle. by rewrite Hle.
  - intros Hgt. apply Nat.ltb_lt in Hgt. rewrite Hgt.
    split; [done|]. split; [apply length_slices|].
    split; [apply lookup_slices|]. split; [apply slices_bounded|].
    intros k c Hk Hlookup.
    rewrite lookup_slices in Hlookup by lia. injection Hlookup as <-.
    rewrite length_str_slice. rewrite length_slices in Hk.
    assert (S (S k) * 2000 ≤ String.length r + 1999) as Hroom; [|lia].
    pose proof (Nat.div_mod_eq (String.length r + 1999) 2000). nia.
  - intros Hlen.
    assert ((2000 <? String.length r) = true) as -> by (apply Nat.ltb_lt; lia).
    unfold slices. rewrite Hlen.
    replace (py_range 4500 2000) with [0; 2000; 4000]
      by (vm_compute; reflexivity).
    rewrite !fmap_cons, !length_str_slice, Hlen.
    vm_compute. reflexivity.
Qed.

Lemma ask_sends_fixed_size_chunks_witness :
  let r := text_of_length 4500 in
  let w := started "deepseek-chat" (Some "sk-test") in
  completion 9 "long?" (answers r) w = Returned (JStr r)
  ∧ String.length r = 4500
  ∧ String.length
      <$> texts (sent (trace (ask_deepseek 9 "long?" (answers r)) w))
    = [2000; 2000; 500].
Proof.
  intros r w.
  assert (completion 9 "long?" (answers r) w = Returned (JStr r)) as Hc
    by (vm_compute; reflexivity).
  assert (String.length r = 4500) as Hlen by (vm_compute; reflexivity).
  split; [exact Hc|]. split; [exact Hlen|].
  destruct (ask_sends_fixed_size_chunks 9 "long?" (answers r) w r Hc)
    as (_ & _ & _ & H4500).
  exact (H4500 Hlen).
Defined.

Lemma join_singleton r : join [r] = r.
Proof.
  unfold join. cbn [foldr]. induction r as [|c r IH]; [done|].
  change (String.app (String c r) EmptyString)
    with (String c (String.app r EmptyString)).
  by rewrite IH.
Qed.

(** C9: for a reply text of any length, the chunks the handler sends,
    read in the order of sending, spell the reply: nothing is lost,
    repeated or moved. *)
Theorem chunks_spell_the_reply ctx q net w r :
  completion ctx q net w = Returned (JStr r) →
  let out := sent (trace (ask_deepseek ctx q net) w) in
  out = (λ c, (ctx, JStr c)) <$> texts out ∧ join (texts out) = r.
Proof.
  intros Hc out. subst out. rewrite (sent_ask_text _ _ _ _ _ Hc).
  rewrite texts_of_texts. split; [done|].
  destruct (2000 <? String.length r).
  - apply join_slices.
  - apply join_singleton.
Qed.

Lemma chunks_spell_the_reply_witness :
  let r := text_of_length 4500 in
  let w := started "deepseek-chat" (Some "sk-test") in
  completion 9 "long?" (answers r) w = Returned (JStr r)
  ∧ join (texts (sent (trace (ask_deepseek 9 "long?" (answers r)) w))) = r.
Proof.
  intros r w.
  assert (completion 9 "long?" (answers r) w = Returned (JStr r)) as Hc
    by (vm_compute; reflexivity).
  split; [exact Hc|].
  apply (chunks_spell_the_reply 9 "long?" (answers r) w r Hc).
Defined.

Lemma stored_then_sends pre hs ctx (vs : list PyVal) :
  Forall (λ ev, is_stored ev = false ∧ is_send ev = false) pre →
  stored_before_sends (pre ++ Stored hs :: (Send ctx <$> vs)).
Proof.
  intros Hpre i j hs' c v Hi Hj.
  assert (i = length pre) as ->.
  { destruct (decide (i < length pre)) as [Hlt|Hge].
    - rewrite lookup_app_l in Hi by done.
      by destruct (proj1 (Forall_lookup _ _) Hpre _ _ Hi).
    - rewrite lookup_app_r in Hi by lia.
      destruct (i - length pre) as [|n] eqn:Hn; [lia|].
      change ((Send ctx <$> vs) !! n = Some (Stored hs')) in Hi.
      rewrite list_lookup_fmap in Hi.
      by destruct (vs !! n). }
  destruct (decide (j < length pre)) as [Hlt|Hge].
  - rewrite lookup_app_l in Hj by done.
    by destruct (proj1 (Forall_lookup _ _) Hpre _ _ Hj).
  - rewrite lookup_app_r in Hj by lia.
    destruct (j - length pre) as [|n] eqn:Hn; [done|]. lia.
Qed.

Lemma prints_are_quiet prints :
  Forall (λ ev, is_print ev = true) prints →
  Forall (λ ev, is_stored ev = false ∧ is_send ev = false) prints.
Proof. intros Hprints. eapply Forall_impl; [exact Hprints|]. by intros []. Qed.

(** C5, as the code has it: the handler updates the store with the
    pair (question, reply) before it sends anything; for a reply text
    the effects are the request, the store update holding the new pair,
    and then the sends of the reply, in that order. *)
Theorem store_updated_before_sends ctx q net w :
  stored_before_sends (trace (ask_deepseek ctx q net) w)
  ∧ ∀ r, completion ctx q net w = Returned (JStr r) →
      ∃ pre,
        trace (ask_deepseek ctx q net) w
        = pre
          ++ Stored (update_conversation_history ctx q (JStr r)
                       (conversation_histories w))
          :: text_sends ctx r
        ∧ sent pre = []
        ∧ text_sends ctx r ≠ []
        ∧ conversation_histories (after (ask_deepseek ctx q net) w)
          = update_conversation_history ctx q (JStr r)
              (conversation_histories w).
Proof.
  split.
  - unfold trace. destruct (completion ctx q net w) as [v|e] eqn:Hc.
    + destruct (ask_deepseek_returned _ _ _ _ _ Hc)
        as (headers & prints & res & vs & -> & Hprints).
      cbn [snd].
      apply (stored_then_sends (Typing ctx :: Post _ _ _ :: prints)).
      repeat (constructor; [done|]). by apply prints_are_quiet.
    + destruct (ask_deepseek_raised _ _ _ _ _ Hc)
        as (headers & prints & -> & Hprints).
      cbn [snd]. intros i j hs c v Hi _.
      destruct i as [|[|i]]; [done..|]. cbn in Hi.
      by destruct (proj1 (Forall_lookup _ _) (prints_are_quiet _ Hprints)
                     _ _ Hi).
  - intros r Hc. unfold trace, after.
    destruct (ask_deepseek_text _ _ _ _ _ Hc)
      as (headers & prints & -> & Hprints).
    eexists (Typing ctx :: Post _ _ _ :: prints). cbn [fst snd].
    split; [done|]. split.
    { rewrite (sent_cons_quiet (Typing ctx)) by done.
      rewrite (sent_cons_quiet (Post _ _ _)) by done.
      by apply sent_prints. }
    split; [|done].
    unfold text_sends. destruct (2000 <? String.length r) eqn:Hlen; [|done].
    apply Nat.ltb_lt in Hlen.
    assert (1 ≤ (String.length r + 1999) / 2000) as Hone
      by (apply Nat.div_le_lower_bound; lia).
    rewrite <- length_slices in Hone.
    destruct (slices r); [cbn in Hone; lia|done].
Qed.

Lemma store_updated_before_sends_witness :
  let w := started "deepseek-chat" (Some "sk-test") in
  completion 1 "hi" (answers "hello") w = Returned (JStr "hello")
  ∧ ∃ pre,
      trace (ask_deepseek 1 "hi" (answers "hello")) w
      = pre
        ++ Stored (update_conversation_history 1 "hi" (JStr "hello")
                     (conversation_histories w))
        :: text_sends 1 "hello"
      ∧ sent pre = []
      ∧ text_sends 1 "hello" ≠ []
      ∧ conversation_histories (after (ask_deepseek 1 "hi" (answers "hello")) w)
        = update_conversation_history 1 "hi" (JStr "hello")
            (conversation_histories w).
Proof.
  intros w. split; [reflexivity|].
  apply (store_updated_before_sends 1 "hi" (answers "hello") w).
  reflexivity.
Defined.

(** C5 as stated fails on the code: in this run the store update is
    the third effect and the send the fourth. *)
Lemma store_update_precedes_send :
  ¬ stored_after_sends
      (trace (ask_deepseek 1 "hi" (answers "hello"))
         (started "deepseek-chat" (Some "sk-test"))).
Proof.
  intros Hafter.
  pose proof (Hafter 2 3
                (update_conversation_history 1 "hi" (JStr "hello") ∅)
                1%Z (JStr "hello") eq_refl eq_refl) as Hlt.
  lia.
Qed.

(** C7: the model command, in whatever channel, leaves every stored
    turn of every channel as it is and overwrites the one model name of
    the process, so that every request posted afterwards, from any
    channel and until the next model command, carries the new name. *)
Theorem model_command_frame ctx model_name w :
  let w' := after (invoke ctx (Model (Some model_name))) w in
  DEEPSEEK_MODEL w' = model_name
  ∧ conversation_histories w' = conversation_histories w
  ∧ sent (trace (invoke ctx (Model (Some model_name))) w)
    = [(ctx, JStr (String.app "Model set to: " model_name))]
  ∧ ∀ msgs, Forall (λ m, is_model m.2 = false) msgs →
      Forall (λ p, model p = model_name) (posted (session msgs w').2)
      ∧ ∀ c rest net question, consume_rest rest = Some question →
          model <$> posted (trace (invoke c (Ask rest net)) (session msgs w').1)
          = [model_name].
Proof.
  intros w'. split; [done|]. split; [done|]. split; [done|].
  intros msgs Hmsgs. split.
  - by apply (session_posted msgs w').
  - intros c rest net question Hq.
    rewrite (invoke_ask_posted _ _ _ _ _ Hq).
    cbn. by rewrite session_model.
Qed.

Lemma model_command_frame_witness :
  let w' := after (invoke 2 (Model (Some "deepseek-reasoner"))) two_channels in
  let msgs := [(1%Z, Ask "first" (answers "one")); (2%Z, Clear); (3%Z, Help)] in
  Forall (λ m, is_model m.2 = false) msgs
  ∧ consume_rest " why? " = Some "why?"
  ∧ conversation_histories w' = conversation_histories two_channels
  ∧ Forall (λ p, model p = "deepseek-reasoner") (posted (session msgs w').2)
  ∧ model <$> posted (trace (invoke 1 (Ask " why? " PostRaises))
                        (session msgs w').1)
    = ["deepseek-reasoner"].
Proof.
  intros w' msgs.
  assert (Forall (λ m, is_model m.2 = false) msgs) as Hmsgs
    by (repeat constructor).
  destruct (model_command_frame 2 "deepseek-reasoner" two_channels)
    as (_ & Hkept & _ & Hlater).
  destruct (Hlater msgs Hmsgs) as (Hall & Hnext).
  split; [exact Hmsgs|]. split; [reflexivity|]. split; [exact Hkept|].
  split; [exact Hall|].
  apply (Hnext 1%Z " why? " PostRaises "why?"). reflexivity.
Defined.

(** C8: an ask whose text after the command name is empty or only
    white space gets the usage hint as its reply; no request is posted
    and the state, the store included, is what it was. *)
Theorem ask_without_question ctx rest net w :
  blank rest →
  let t := trace (invoke ctx (Ask rest net)) w in
  sent t = [(ctx, JStr usage_hint)]
  ∧ posted t = []
  ∧ after (invoke ctx (Ask rest net)) w = w.
Proof.
  unfold blank, trace, after, invoke. intros Hblank.
  cbn [callback]. unfold consume_rest. by rewrite Hblank.
Qed.

Lemma ask_without_question_witness :
  (blank "" ∧ blank "   ")
  ∧ (sent (trace (invoke 1 (Ask "" (answers "unused"))) two_channels)
     = [(1%Z, JStr usage_hint)]
     ∧ posted (trace (invoke 1 (Ask "" (answers "unused"))) two_channels) = []
     ∧ after (invoke 1 (Ask "" (answers "unused"))) two_channels
       = two_channels)
  ∧ (sent (trace (invoke 1 (Ask "   " (answers "unused"))) two_channels)
     = [(1%Z, JStr usage_hint)]
     ∧ posted (trace (invoke 1 (Ask "   " (answers "unused"))) two_channels) = []
     ∧ after (invoke 1 (Ask "   " (answers "unused"))) two_channels
       = two_channels).
Proof.
  split; [split; reflexivity|]. split.
  - apply (ask_without_question 1 "" (answers "unused") two_channels).
    reflexivity.
  - apply (ask_without_question 1 "   " (answers "unused") two_channels).
    reflexivity.
Defined.
End HandlerClaims.

(** * Whole commands *)

Section Commands.
Implicit Types w : World.
Implicit Types net : PostOutcome.

Lemma mapM_Result_length {A B} (f : A → Result B) (l : list A) (k : list B) :
  mapM f l = Returned k → length k = length l.
Proof.
  revert k. induction l as [|x l IH]; intros k.
  - by intros [= <-].
  - cbn [mapM]. unfold mbind, Result_bind, mret, Result_ret.
    destruct (f x) as [y|e]; [|done].
    change ((fix go (l0 : list A) : Result (list B) :=
               match l0 with
               | [] => Returned []
               | x0 :: l1 =>
                   match f x0 with
                   | Returned a =>
                       match go l1 with
                       | Returned a0 => Returned (a :: a0)
                       | Raised e => Raised e
                       end
                   | Raised e => Raised e
                   end
               end) l) with (mapM f l).
    destruct (mapM f l) as [k'|e]; [|done].
    intros [= <-]. cbn. by rewrite (IH k').
Qed.

Lemma chunks_of_nonempty v n cs :
  2000 < n → chunks_of v n = Returned cs → cs ≠ [].
Proof.
  intros Hn Hcs. apply mapM_Result_length in Hcs.
  rewrite length_py_range in Hcs.
  assert (1 ≤ (n + 2000 - 1) / 2000) as Hone
    by (apply Nat.div_le_lower_bound; lia).
  rewrite <- Hcs in Hone. intros ->. simpl length in Hone. lia.
Qed.

(** The run of an ask that has a question, by what the client gives:
    a fault of the client leaves the state alone; a value is stored
    first, and then either sent (whole or in chunks) or refused by
    [len] or by slicing, which the dispatcher reports. *)
Lemma invoke_ask_run ctx rest q net w :
  consume_rest rest = Some q →
  ∃ headers prints tail w',
    invoke ctx (Ask rest net) w
    = (Returned tt, w',
       Typing ctx
         :: (Post DEEPSEEK_API_URL headers
               (build_payload (DEEPSEEK_MODEL w) q
                  (Some (get_history (conversation_histories w) ctx)))
               :: prints)
         ++ tail)
    ∧ Forall (λ ev, is_print ev = true) prints
    ∧ match completion ctx q net w with
      | Raised e => w' = w ∧ tail = [SendError ctx (CommandInvokeError e)]
      | Returned v =>
          let hs := update_conversation_history ctx q v
                      (conversation_histories w) in
          w' = mkWorld hs (DEEPSEEK_MODEL w) (DEEPSEEK_API_KEY w)
          ∧ ((∃ vs n, vs ≠ [] ∧ tail = Stored hs :: (Send ctx <$> vs)
                      ∧ py_len v = Returned n
                      ∧ if 2000 <? n then chunks_of v n = Returned vs
                        else vs = [v])
             ∨ (∃ e, tail = [Stored hs; SendError ctx (CommandInvokeError e)]
                     ∧ (py_len v = Raised e
                        ∨ ∃ n, py_len v = Returned n ∧ 2000 < n
                               ∧ chunks_of v n = Raised e)))
      end.
Proof.
  intros Hq. unfold invoke. cbn [callback]. rewrite Hq.
  unfold try_except, completion, ask_deepseek.
  destruct (call_deepseek_api_run q
              (Some (get_history (conversation_histories w) ctx)) net w)
    as (r0 & headers & prints & Hrun & Hprints).
  run_bot. rewrite Hrun. cbn [fst snd].
  exists headers, prints.
  destruct r0 as [v|e]; cbn [on_command_error emit fst snd].
  - destruct (py_len v) as [n|e] eqn:Hlen.
    + destruct (2000 <? n) eqn:Hn.
      * destruct (chunks_of v n) as [cs|e] eqn:Hcs.
        -- rewrite for_each_send.
           eexists _, _. split; [reflexivity|]. split; [done|].
           split; [done|]. left. exists cs, n.
           apply Nat.ltb_lt in Hn as Hn'.
           split; [by eapply chunks_of_nonempty|]. split; [done|].
           split; [done|]. by rewrite Hn.
        -- eexists [Stored _; SendError ctx (CommandInvokeError e)], _.
           split; [f_equal; cbn [app]; by rewrite <- ?app_assoc|].
           split; [done|]. split; [done|].
           right. exists e. split; [done|]. right.
           exists n. apply Nat.ltb_lt in Hn. done.
      * eexists _, _. split; [reflexivity|]. split; [done|].
        split; [done|]. left. exists [v], n. by rewrite Hn.
    + eexists [Stored _; SendError ctx (CommandInvokeError e)], _.
      split; [f_equal; cbn [app]; by rewrite <- ?app_assoc|].
      split; [done|]. split; [done|].
      right. exists e. split; [done|]. by left.
  - eexists [SendError ctx (CommandInvokeError e)], _.
    split; [f_equal; cbn [app]; by rewrite <- ?app_assoc|]. by split.
Qed.

Lemma sent_ask_prefix ctx url headers p prints tail :
  Forall (λ ev, is_print ev = true) prints →
  sent (Typing ctx :: (Post url headers p :: prints) ++ tail) = sent tail.
Proof.
  intros Hprints.
  rewrite (sent_cons_quiet (Typing ctx)), sent_app by done.
  by rewrite (sent_cons_quiet (Post _ _ _)), sent_prints.
Qed.

Lemma posted_ask_prefix ctx url headers p prints tail :
  Forall (λ ev, is_print ev = true) prints →
  posted (Typing ctx :: (Post url headers p :: prints) ++ tail)
  = p :: posted tail.
Proof.
  intros Hprints.
  rewrite (posted_cons_quiet (Typing ctx)), posted_app by done.
  by rewrite posted_post_prints.
Qed.




(** What the two [except] clauses name never gets through the client. *)
Lemma call_deepseek_api_raises q h net w e :
  (call_deepseek_api q h net w).1.1 = Raised e →
  e ≠ RequestException ∧ e ≠ KeyError ∧ e ≠ IndexError.
Proof.
  unfold call_deepseek_api. run_bot.
  destruct net as [|response]; cbn; [done|].
  destruct (raise_for_status_cases response) as [-> | ->]; cbn; [done|].
  destruct (response_json response) as [result|[]]; cbn; try done.
  1: destruct (first_choice_content result) as [v|[]]; cbn; try done.
  all: by intros [= <-].
Qed.

Lemma call_deepseek_api_transport_fails q h net w :
  transport_fails net →
  (call_deepseek_api q h net w).1.1 = Returned (JStr contacting_error).
Proof.
  unfold call_deepseek_api, transport_fails. run_bot.
  destruct net as [|response]; cbn; [done|].
  intros [Hstatus|Hbody].
  - by rewrite raise_for_status_error.
  - destruct (raise_for_status_cases response) as [-> | ->]; cbn; [done|].
    unfold response_json. by rewrite Hbody.
Qed.

Lemma invoke_clear_run ctx w :
  invoke ctx Clear w
  = match conversation_histories w !! ctx with
    | Some _ =>
        (Returned tt,
         mkWorld (delete ctx (conversation_histories w))
           (DEEPSEEK_MODEL w) (DEEPSEEK_API_KEY w),
         [Stored (delete ctx (conversation_histories w));
          Send ctx (JStr "Conversation history cleared!")])
    | None =>
        (Returned tt, w, [Send ctx (JStr "No conversation history to clear.")])
    end.
Proof.
  unfold invoke, try_except. cbn [callback]. unfold clear_history. run_bot.
  by destruct (conversation_histories w !! ctx).
Qed.


(** X3: when the client raises, with whatever fault, the ask changes
    nothing: the state is what it was, no message is sent, and the one
    answer is the dispatcher's report of that fault. *)
Theorem failed_ask_leaves_state ctx rest q net w e :
  consume_rest rest = Some q →
  completion ctx q net w = Raised e →
  after (invoke ctx (Ask rest net)) w = w
  ∧ sent (trace (invoke ctx (Ask rest net)) w) = []
  ∧ last (trace (invoke ctx (Ask rest net)) w)
    = Some (SendError ctx (CommandInvokeError e)).
Proof.
  intros Hq Hc. unfold after, trace.
  destruct (invoke_ask_run ctx rest q net w Hq)
    as (headers & prints & tail & w' & -> & Hprints & Htail).
  rewrite Hc in Htail. destruct Htail as (-> & ->). cbn [fst snd].
  split; [done|]. split; [by rewrite sent_ask_prefix|].
  change (Typing ctx :: ?t ++ ?u) with ((Typing ctx :: t) ++ u).
  by rewrite last_snoc.
Qed.

Lemma failed_ask_leaves_state_witness :
  consume_rest "hi" = Some "hi"
  ∧ (completion 1 "hi" (PostReturns (mkResponse 200 (Json null_choices_body)))
       two_channels = Raised TypeError
     ∧ after (invoke 1 (Ask "hi"
                (PostReturns (mkResponse 200 (Json null_choices_body)))))
         two_channels = two_channels
     ∧ sent (trace (invoke 1 (Ask "hi"
                      (PostReturns (mkResponse 200 (Json null_choices_body)))))
               two_channels) = [])
  ∧ (completion 1 "hi" (PostReturns (mkResponse 200 DigitsOverLimit))
       two_channels = Raised ValueError
     ∧ last (trace (invoke 1 (Ask "hi"
                      (PostReturns (mkResponse 200 DigitsOverLimit))))
               two_channels)
       = Some (SendError 1 (CommandInvokeError ValueError))).
Proof.
  assert (consume_rest "hi" = Some "hi") as Hq by reflexivity.
  assert (completion 1 "hi"
            (PostReturns (mkResponse 200 (Json null_choices_body)))
            two_channels = Raised TypeError) as Hc by reflexivity.
  assert (completion 1 "hi" (PostReturns (mkResponse 200 DigitsOverLimit))
            two_channels = Raised ValueError) as Hc' by reflexivity.
  split; [exact Hq|]. split.
  - split; [exact Hc|].
    destruct (failed_ask_leaves_state 1 "hi" "hi" _ two_channels TypeError
                Hq Hc) as (Hstate & Hsent & _).
    split; [exact Hstate | exact Hsent].
  - split; [exact Hc'|].
    destruct (failed_ask_leaves_state 1 "hi" "hi" _ two_channels ValueError
                Hq Hc') as (_ & _ & Hlast).
    exact Hlast.
Defined.

(** X4: a content that is [null], a number or a boolean is stored as
    the assistant's turn all the same, before [len] refuses it: the store
    holds the new pair, no message is sent, and the one answer is the
    report of the [TypeError]. *)
Theorem unsized_reply_is_stored_not_sent ctx rest q net w v :
  consume_rest rest = Some q →
  completion ctx q net w = Returned v →
  unsized v →
  conversation_histories (after (invoke ctx (Ask rest net)) w)
  = update_conversation_history ctx q v (conversation_histories w)
  ∧ sent (trace (invoke ctx (Ask rest net)) w) = []
  ∧ last (trace (invoke ctx (Ask rest net)) w)
    = Some (SendError ctx (CommandInvokeError TypeError)).
Proof.
  intros Hq Hc Hv. unfold after, trace.
  destruct (invoke_ask_run ctx rest q net w Hq)
    as (headers & prints & tail & w' & -> & Hprints & Htail).
  rewrite Hc in Htail. cbn [fst snd].
  destruct Htail as (-> & [(vs & n & _ & _ & Hlen & _)|(e & -> & He)]).
  { by destruct v. }
  assert (e = TypeError) as ->.
  { destruct He as [Hlen|(n & Hlen & _)]; destruct v; try done.
    all: by injection Hlen as <-. }
  split; [done|]. split; [by rewrite sent_ask_prefix|].
  change (Typing ctx :: ?t ++ ?u) with ((Typing ctx :: t) ++ u).
  by rewrite last_app.
Qed.

Lemma unsized_reply_is_stored_not_sent_witness :
  let net := PostReturns (mkResponse 200 (Json null_content_body)) in
  consume_rest "hi" = Some "hi"
  ∧ completion 3 "hi" net two_channels = Returned JNull
  ∧ unsized JNull
  ∧ conversation_histories (after (invoke 3 (Ask "hi" net)) two_channels) !! 3%Z
    = Some [mkTurn user (JStr "hi"); mkTurn assistant JNull]
  ∧ sent (trace (invoke 3 (Ask "hi" net)) two_channels) = [].
Proof.
  intros net.
  assert (consume_rest "hi" = Some "hi") as Hq by reflexivity.
  assert (completion 3 "hi" net two_channels = Returned JNull) as Hc
    by reflexivity.
  split; [exact Hq|]. split; [exact Hc|]. split; [exact I|].
  destruct (unsized_reply_is_stored_not_sent 3 "hi" "hi" net two_channels
              JNull Hq Hc I) as (Hstore & Hsent & _).
  split; [|exact Hsent].
  rewrite Hstore. reflexivity.
Defined.

Lemma apologies_are_short :
  String.length contacting_error ≤ 2000 ∧ String.length parsing_error ≤ 2000.
Proof. split; apply Nat.leb_le; vm_compute; reflexivity. Qed.

(** X5: a request that cannot be completed (connection failure, 4xx or
    5xx status, body that is not JSON) is answered with the apology, and
    the apology is stored as the assistant's turn of that exchange, like
    a reply of the service. *)
Theorem transport_failure_is_remembered ctx rest q net w :
  consume_rest rest = Some q →
  transport_fails net →
  sent (trace (invoke ctx (Ask rest net)) w) = [(ctx, JStr contacting_error)]
  ∧ conversation_histories (after (invoke ctx (Ask rest net)) w)
    = update_conversation_history ctx q (JStr contacting_error)
        (conversation_histories w).
Proof.
  intros Hq Hnet. unfold after, trace.
  destruct (invoke_ask_run ctx rest q net w Hq)
    as (headers & prints & tail & w' & -> & Hprints & Htail).
  unfold completion in Htail.
  rewrite call_deepseek_api_transport_fails in Htail by done.
  cbn [fst snd]. rewrite sent_ask_prefix by done.
  destruct apologies_are_short as [Hshort _].
  destruct Htail as (-> & [(vs & n & _ & -> & Hlen & Hvs)|(e & _ & He)]).
  - cbn [py_len] in Hlen.
    assert (n = String.length contacting_error) as -> by congruence.
    apply Nat.ltb_ge in Hshort. rewrite Hshort in Hvs. by subst vs.
  - destruct He as [He|(n & Hlen & Hn & _)]; [done|].
    cbn [py_len] in Hlen.
    assert (n = String.length contacting_error) as -> by congruence. lia.
Qed.

Lemma transport_failure_is_remembered_witness :
  consume_rest "hi" = Some "hi"
  ∧ transport_fails PostRaises
  ∧ sent (trace (invoke 3 (Ask "hi" PostRaises)) two_channels)
    = [(3%Z, JStr contacting_error)]
  ∧ conversation_histories (after (invoke 3 (Ask "hi" PostRaises)) two_channels)
      !! 3%Z
    = Some [mkTurn user (JStr "hi"); mkTurn assistant (JStr contacting_error)].
Proof.
  assert (consume_rest "hi" = Some "hi") as Hq by reflexivity.
  split; [exact Hq|]. split; [exact I|].
  destruct (transport_failure_is_remembered 3 "hi" "hi" PostRaises two_channels
              Hq I) as (Hsent & Hstore).
  split; [exact Hsent|]. rewrite Hstore. reflexivity.
Defined.

(** X6: a command touches no history but that of its own channel:
    whatever the command given in a channel, the entry of every other
    channel is what it was. *)
Theorem commands_touch_one_channel ctx inv w ch :
  ch ≠ ctx →
  conversation_histories (after (invoke ctx inv) w) !! ch
  = conversation_histories w !! ch.
Proof.
  intros Hch. unfold after.
  destruct inv as [rest net| |[name|]|]; try done.
  - destruct (consume_rest rest) as [q|] eqn:Hq.
    + destruct (invoke_ask_run ctx rest q net w Hq)
        as (headers & prints & tail & w' & -> & _ & Htail).
      cbn [fst snd]. destruct (completion ctx q net w) as [v|e].
      * destruct Htail as (-> & _). cbn. by apply lookup_update_ne.
      * by destruct Htail as (-> & _).
    + unfold invoke. cbn [callback]. by rewrite Hq.
  - rewrite invoke_clear_run.
    destruct (conversation_histories w !! ctx); [|done].
    cbn. by apply lookup_delete_ne.
Qed.

Lemma commands_touch_one_channel_witness :
  (2 ≠ 1)%Z
  ∧ conversation_histories
      (after (invoke 1 (Ask "more" (answers "yes"))) two_channels) !! 2%Z
    = Some (exchange "c" (JStr "d"))
  ∧ conversation_histories (after (invoke 1 Clear) two_channels) !! 2%Z
    = Some (exchange "c" (JStr "d")).
Proof.
  assert (2 ≠ 1)%Z as Hne by lia.
  split; [exact Hne|]. split.
  - rewrite (commands_touch_one_channel 1 _ two_channels 2 Hne). reflexivity.
  - rewrite (commands_touch_one_channel 1 _ two_channels 2 Hne). reflexivity.
Defined.

(** X7: after any session the model name is the one given by the last
    model command that had a name, or the name the session started with
    if there was none; the API key is never changed. *)
Theorem session_model_is_last_set msgs w :
  DEEPSEEK_MODEL (session msgs w).1 = last_model msgs (DEEPSEEK_MODEL w)
  ∧ DEEPSEEK_API_KEY (session msgs w).1 = DEEPSEEK_API_KEY w.
Proof.
  revert w. induction msgs as [|[ctx inv] msgs IH]; intros w; [done|].
  rewrite session_cons. cbn [fst].
  destruct (IH (after (invoke ctx inv) w)) as [-> ->].
  destruct (invoke_effect ctx inv w) as (Hkey & Hmodel & _).
  split; [|exact Hkey].
  destruct inv as [rest net| |[name|]|]; cbn [last_model]; try done.
  all: by rewrite Hmodel.
Qed.

Lemma bounded_update ch q r hs :
  bounded hs → bounded (update_conversation_history ch q r hs).
Proof.
  intros Hhs ch'. destruct (decide (ch = ch')) as [<-|Hne].
  - rewrite get_history_update_eq, length_py_last. lia.
  - by rewrite get_history_update_ne.
Qed.

Lemma bounded_delete ch hs : bounded hs → bounded (delete ch hs).
Proof.
  intros Hhs ch'. unfold get_history.
  destruct (decide (ch = ch')) as [<-|Hne].
  - rewrite lookup_delete_eq. cbn. lia.
  - rewrite lookup_delete_ne by done. apply Hhs.
Qed.

(** The histories after one command: untouched, or with the pair of an
    ask appended, or without the entry a clear deleted. *)
Lemma invoke_histories ctx inv w :
  let hs := conversation_histories w in
  let hs' := conversation_histories (after (invoke ctx inv) w) in
  hs' = hs
  ∨ (∃ q v, hs' = update_conversation_history ctx q v hs)
  ∨ (is_Some (hs !! ctx) ∧ hs' = delete ctx hs).
Proof.
  unfold after.
  destruct inv as [rest net| |[name|]|]; try by left.
  - destruct (consume_rest rest) as [q|] eqn:Hq.
    + destruct (invoke_ask_run ctx rest q net w Hq)
        as (headers & prints & tail & w' & -> & _ & Htail).
      cbn [fst snd]. destruct (completion ctx q net w) as [v|e].
      * destruct Htail as (-> & _). right. left. by exists q, v.
      * destruct Htail as (-> & _). by left.
    + unfold invoke. cbn [callback]. rewrite Hq. by left.
  - rewrite invoke_clear_run.
    destruct (conversation_histories w !! ctx) eqn:Hctx; [|by left].
    right. right. cbn. split; [by eexists|done].
Qed.

Lemma session_bounded msgs w :
  bounded (conversation_histories w) →
  bounded (conversation_histories (session msgs w).1).
Proof.
  revert w. induction msgs as [|[ctx inv] msgs IH]; intros w Hw; [done|].
  rewrite session_cons. cbn [fst]. apply IH.
  destruct (invoke_histories ctx inv w) as [-> |[(q & v & ->)|(_ & ->)]].
  - done.
  - by apply bounded_update.
  - by apply bounded_delete.
Qed.

(** X8: over any session of a freshly started process, with commands in
    any channels, clears included, no channel's history ever holds more
    than 20 turns. *)
Theorem session_histories_bounded model_name key msgs ch :
  length (get_history
            (conversation_histories (session msgs (started model_name key)).1)
            ch) ≤ 20.
Proof.
  apply session_bounded. intros ch'. unfold get_history. cbn.
  rewrite lookup_empty. cbn. lia.
Qed.

Lemma invoke_posted ctx inv w :
  posted (trace (invoke ctx inv) w)
  = match inv with
    | Ask rest _ =>
        match consume_rest rest with
        | Some q =>
            [build_payload (DEEPSEEK_MODEL w) q
               (Some (get_history (conversation_histories w) ctx))]
        | None => []
        end
    | _ => []
    end.
Proof.
  destruct inv as [rest net| |[name|]|]; try done.
  - destruct (consume_rest rest) as [q|] eqn:Hq.
    + by apply invoke_ask_posted.
    + unfold trace, invoke. cbn [callback]. by rewrite Hq.
  - unfold trace. rewrite invoke_clear_run.
    by destruct (conversation_histories w !! ctx).
Qed.

(** X9: a session posts exactly one request for each ask that has a
    question and none for anything else: clear, model, help and an ask
    without a question never reach the service, and no ask is retried. *)
Theorem session_posts_one_request_per_question msgs w :
  length (posted (session msgs w).2)
  = length (filter (λ m, has_question m.2 = true) msgs).
Proof.
  revert w. induction msgs as [|[ctx inv] msgs IH]; intros w; [done|].
  rewrite session_cons. cbn [snd].
  rewrite posted_app, length_app, IH, invoke_posted, filter_cons.
  cbn [snd]. destruct inv as [rest net| |[name|]|]; cbn [has_question];
    try by rewrite decide_False.
  destruct (consume_rest rest).
  - by rewrite decide_True.
  - by rewrite decide_False.
Qed.

(** X10: every request a freshly started process posts during a session
    carries at most 21 messages: a history of whole (user, assistant)
    pairs, of at most 20 turns, followed by the one user turn that holds
    the question. *)
Theorem requests_are_pairs_then_question model_name key msgs :
  Forall (λ p, ∃ h q,
            messages p = h ++ [mkTurn user (JStr q)]
            ∧ alternating h = true
            ∧ length h ≤ 20
            ∧ length (messages p) ≤ 21)
    (posted (session msgs (started model_name key)).2).
Proof.
  assert (∀ w, paired (conversation_histories w) →
               bounded (conversation_histories w) →
               Forall (λ p, ∃ h q,
                         messages p = h ++ [mkTurn user (JStr q)]
                         ∧ alternating h = true
                         ∧ length h ≤ 20
                         ∧ length (messages p) ≤ 21)
                 (posted (session msgs w).2)) as Hgen.
  { induction msgs as [|[ctx inv] msgs IH]; intros w Hpaired Hbounded.
    { constructor. }
    rewrite session_cons. cbn [snd]. rewrite posted_app.
    apply Forall_app. split.
    - rewrite invoke_posted.
      destruct inv as [rest net| |[name|]|]; try by constructor.
      destruct (consume_rest rest) as [q|]; [|by constructor].
      repeat constructor.
      exists (get_history (conversation_histories w) ctx), q.
      rewrite messages_build_payload. cbn [default].
      split; [done|]. split; [apply Hpaired|]. split; [apply Hbounded|].
      rewrite length_app. cbn. pose proof (Hbounded ctx). lia.
    - apply IH.
      + by apply invoke_effect.
      + destruct (invoke_histories ctx inv w)
          as [-> |[(q & v & ->)|(_ & ->)]].
        * done.
        * by apply bounded_update.
        * by apply bounded_delete. }
  apply Hgen.
  - apply paired_empty.
  - intros ch. unfold get_history. cbn. rewrite lookup_empty. cbn. lia.
Qed.

Lemma get_history_after_clear ctx w :
  get_history (conversation_histories (after (invoke ctx Clear) w)) ctx = [].
Proof.
  unfold after, get_history. rewrite invoke_clear_run.
  destruct (conversation_histories w !! ctx) eqn:Hctx; cbn.
  - by rewrite lookup_delete_eq.
  - by rewrite Hctx.
Qed.

(** X11: clear makes the channel forget: whatever the history was, the
    request of the next ask in that channel carries the question alone. *)
Theorem clear_forgets_history ctx rest q net w :
  consume_rest rest = Some q →
  messages <$> posted (trace (invoke ctx (Ask rest net))
                         (after (invoke ctx Clear) w))
  = [[mkTurn user (JStr q)]].
Proof.
  intros Hq. rewrite invoke_posted, Hq. cbn [fmap list_fmap].
  by rewrite messages_build_payload, get_history_after_clear.
Qed.

Lemma clear_forgets_history_witness :
  consume_rest "again?" = Some "again?"
  ∧ messages <$> posted (trace (invoke 1 (Ask "again?" (answers "yes")))
                           (after (invoke 1 Clear) two_channels))
    = [[mkTurn user (JStr "again?")]].
Proof.
  split; [reflexivity|].
  apply (clear_forgets_history 1 "again?" "again?" (answers "yes") two_channels).
  reflexivity.
Defined.

(** X12: clear twice is clear once: the second clear in a row changes
    nothing and always answers that there is nothing to clear. *)
Theorem clear_twice ctx w :
  let w1 := after (invoke ctx Clear) w in
  after (invoke ctx Clear) w1 = w1
  ∧ trace (invoke ctx Clear) w1
    = [Send ctx (JStr "No conversation history to clear.")].
Proof.
  intros w1.
  assert (conversation_histories w1 !! ctx = None) as Hnone.
  { subst w1. unfold after. rewrite invoke_clear_run.
    destruct (conversation_histories w !! ctx) eqn:Hctx; cbn; [|done].
    apply lookup_delete_eq. }
  unfold after, trace. rewrite (invoke_clear_run ctx w1). by rewrite Hnone.
Qed.

Lemma append_keeps_new_exchange_eq ch q r (hs : gmap Z (list Turn)) :
  update_conversation_history ch q r hs !! ch
  = Some (drop (length (get_history hs ch) - 18) (get_history hs ch)
            ++ exchange q r).
Proof.
  rewrite lookup_update_eq. f_equal. unfold py_last.
  rewrite length_app, drop_app. cbn [length exchange].
  replace (length (get_history hs ch) + 2 - 20)
    with (length (get_history hs ch) - 18) by lia.
  by replace (length (get_history hs ch) - 18 - length (get_history hs ch))
    with 0 by lia.
Qed.

(** X13: an append keeps the new pair, whole, at the end, after the
    last 18 turns of what the channel held: the pair just given is never
    what the truncation drops, and the channel has an entry afterwards
    while no other key appears or disappears. *)
Theorem append_keeps_new_exchange ch q r (hs : gmap Z (list Turn)) :
  let h := get_history hs ch in
  update_conversation_history ch q r hs !! ch
  = Some (drop (length h - 18) h ++ exchange q r)
  ∧ dom (update_conversation_history ch q r hs) = {[ch]} ∪ dom hs.
Proof.
  intros h. split.
  - apply append_keeps_new_exchange_eq.
  - apply set_eq. intros c. rewrite elem_of_union, elem_of_singleton.
    rewrite !elem_of_dom.
    destruct (decide (ch = c)) as [<-|Hne].
    + rewrite lookup_update_eq. split; [by left|by eexists].
    + rewrite lookup_update_ne by done. split; [by right|].
      intros [Heq|Hc]; [congruence|done].
Qed.

(** X14: whatever the service does, the client leaves the state as it
    is and posts exactly one request, to the completions URL, with the
    bearer header built from the key; it prints at most once; and a
    [RequestException], a [KeyError] or an [IndexError] never gets out
    of it. *)
Theorem client_frame prompt prior net w :
  let run := call_deepseek_api prompt prior net w in
  run.1.2 = w
  ∧ (∃ prints,
       run.2
       = Post DEEPSEEK_API_URL
           [("Authorization", bearer (DEEPSEEK_API_KEY w));
            ("Content-Type", "application/json")]
           (build_payload (DEEPSEEK_MODEL w) prompt prior)
           :: prints
       ∧ Forall (λ ev, is_print ev = true) prints
       ∧ length prints ≤ 1)
  ∧ ∀ e, run.1.1 = Raised e →
      e ≠ RequestException ∧ e ≠ KeyError ∧ e ≠ IndexError.
Proof.
  intros run. split; [|split].
  - subst run.
    destruct (call_deepseek_api_run prompt prior net w)
      as (r & headers & prints & -> & _). done.
  - subst run. unfold call_deepseek_api. run_bot.
    destruct net as [|response]; cbn.
    { eexists. split; [reflexivity|]. split; [by repeat constructor|cbn; lia]. }
    destruct (raise_for_status response) as [[]|e]; cbn.
    + destruct (response_json response) as [result|e]; cbn.
      * destruct (first_choice_content result) as [v|[]]; cbn;
          (eexists; split; [reflexivity|];
           split; [by repeat constructor|cbn; lia]).
      * destruct e; cbn;
          (eexists; split; [reflexivity|];
           split; [by repeat constructor|cbn; lia]).
    + destruct e; cbn;
        (eexists; split; [reflexivity|];
         split; [by repeat constructor|cbn; lia]).
  - apply call_deepseek_api_raises.
Qed.

Lemma client_frame_witness :
  (call_deepseek_api "hi" None
     (PostReturns (mkResponse 200 NestedTooDeep))
     two_channels).1.1 = Raised RecursionError
  ∧ (call_deepseek_api "hi" None
       (PostReturns (mkResponse 200 NestedTooDeep))
       two_channels).1.2 = two_channels
  ∧ (RecursionError ≠ RequestException
     ∧ RecursionError ≠ KeyError ∧ RecursionError ≠ IndexError).
Proof.
  destruct (client_frame "hi" None
              (PostReturns (mkResponse 200 NestedTooDeep))
              two_channels) as (Hstate & _ & Hraises).
  split; [reflexivity|]. split; [exact Hstate|].
  apply (Hraises RecursionError). reflexivity.
Defined.

(** X15: the conversation continues: after an ask whose request the
    client completed with a value, the request of the next ask in the
    same channel carries the last 18 turns of the older history, then the
    question and the value of that ask, then the new question. *)
Theorem next_ask_carries_the_exchange ctx rest1 q1 net1 v rest2 q2 net2 w :
  consume_rest rest1 = Some q1 →
  completion ctx q1 net1 w = Returned v →
  consume_rest rest2 = Some q2 →
  let h := get_history (conversation_histories w) ctx in
  messages <$> posted (trace (invoke ctx (Ask rest2 net2))
                         (after (invoke ctx (Ask rest1 net1)) w))
  = [drop (length h - 18) h ++ exchange q1 v ++ [mkTurn user (JStr q2)]].
Proof.
  intros Hq1 Hc Hq2 h. rewrite invoke_posted, Hq2. cbn [fmap list_fmap].
  rewrite messages_build_payload. cbn [default].
  unfold after.
  destruct (invoke_ask_run ctx rest1 q1 net1 w Hq1)
    as (headers & prints & tail & w' & -> & _ & Htail).
  rewrite Hc in Htail. destruct Htail as (-> & _). cbn [fst snd].
  cbn [conversation_histories]. unfold get_history at 1.
  rewrite append_keeps_new_exchange_eq. cbn [default id].
  by rewrite <- app_assoc.
Qed.

Lemma next_ask_carries_the_exchange_witness :
  consume_rest "one" = Some "one"
  ∧ completion 1 "one" (answers "first") two_channels = Returned (JStr "first")
  ∧ consume_rest "two" = Some "two"
  ∧ messages <$> posted (trace (invoke 1 (Ask "two" PostRaises))
                           (after (invoke 1 (Ask "one" (answers "first")))
                              two_channels))
    = [exchange "a" (JStr "b") ++ exchange "one" (JStr "first")
         ++ [mkTurn user (JStr "two")]].
Proof.
  assert (consume_rest "one" = Some "one") as Hq1 by reflexivity.
  assert (completion 1 "one" (answers "first") two_channels
          = Returned (JStr "first")) as Hc by reflexivity.
  assert (consume_rest "two" = Some "two") as Hq2 by reflexivity.
  split; [exact Hq1|]. split; [exact Hc|]. split; [exact Hq2|].
  rewrite (next_ask_carries_the_exchange 1 "one" "one" (answers "first")
             (JStr "first") "two" "two" PostRaises two_channels Hq1 Hc Hq2).
  reflexivity.
Defined.

Lemma whole_exchanges_update ch q r (hs : gmap Z (list Turn)) :
  map_Forall (λ _ h, 2 ≤ length h) hs →
  map_Forall (λ _ h, 2 ≤ length h) (update_conversation_history ch q r hs).
Proof.
  intros Hhs c h. destruct (decide (ch = c)) as [<-|Hne].
  - rewrite append_keeps_new_exchange_eq. intros [= <-].
    rewrite length_app. cbn. lia.
  - rewrite lookup_update_ne by done. apply Hhs.
Qed.

(** X16: in a process that was freshly started, a channel that has an
    entry in the store has at least one whole exchange in it: no command
    leaves an empty history behind, so a clear that confirms has removed
    turns. *)
Theorem stored_histories_are_not_empty model_name key msgs :
  map_Forall (λ _ h, 2 ≤ length h)
    (conversation_histories (session msgs (started model_name key)).1).
Proof.
  assert (∀ w, map_Forall (λ _ h, 2 ≤ length h) (conversation_histories w) →
               map_Forall (λ _ h, 2 ≤ length h)
                 (conversation_histories (session msgs w).1)) as Hgen.
  { induction msgs as [|[ctx inv] msgs IH]; intros w Hw; [done|].
    rewrite session_cons. cbn [fst]. apply IH.
    destruct (invoke_histories ctx inv w) as [-> |[(q & v & ->)|(_ & ->)]].
    - done.
    - by apply whole_exchanges_update.
    - by apply map_Forall_delete. }
  apply Hgen. apply map_Forall_empty.
Qed.

(** X17: appends to different channels do not see each other: done in
    either order they leave the same store. *)
Theorem appends_to_channels_commute ch1 q1 r1 ch2 q2 r2
    (hs : gmap Z (list Turn)) :
  ch1 ≠ ch2 →
  update_conversation_history ch1 q1 r1
    (update_conversation_history ch2 q2 r2 hs)
  = update_conversation_history ch2 q2 r2
      (update_conversation_history ch1 q1 r1 hs).
Proof.
  intros Hne. apply map_eq. intros c.
  destruct (decide (ch1 = c)) as [<-|Hc1].
  - rewrite lookup_update_eq, get_history_update_ne by done.
    rewrite lookup_update_ne by done. by rewrite lookup_update_eq.
  - rewrite (lookup_update_ne ch1) by done.
    destruct (decide (ch2 = c)) as [<-|Hc2].
    + rewrite !lookup_update_eq. by rewrite get_history_update_ne.
    + by rewrite !lookup_update_ne.
Qed.

Lemma appends_to_channels_commute_witness :
  (1 ≠ 2)%Z
  ∧ update_conversation_history 1 "x" (JStr "y")
      (update_conversation_history 2 "u" (JStr "v")
         (conversation_histories two_channels))
    = update_conversation_history 2 "u" (JStr "v")
        (update_conversation_history 1 "x" (JStr "y")
           (conversation_histories two_channels)).
Proof.
  assert (1 ≠ 2)%Z as Hne by lia.
  split; [exact Hne|].
  apply (appends_to_channels_commute 1 "x" (JStr "y") 2 "u" (JStr "v")
           (conversation_histories two_channels) Hne).
Defined.

(** X18: a clear undoes every append of its channel: the state after an
    ask that stored a pair and then a clear in the same channel is the
    state after the clear alone, and that clear always confirms. *)
Theorem clear_undoes_ask ctx rest q net v w :
  consume_rest rest = Some q →
  completion ctx q net w = Returned v →
  let w1 := after (invoke ctx (Ask rest net)) w in
  after (invoke ctx Clear) w1 = after (invoke ctx Clear) w
  ∧ sent (trace (invoke ctx Clear) w1)
    = [(ctx, JStr "Conversation history cleared!")].
Proof.
  intros Hq Hc w1.
  assert (w1 = mkWorld
                 (update_conversation_history ctx q v (conversation_histories w))
                 (DEEPSEEK_MODEL w) (DEEPSEEK_API_KEY w)) as ->.
  { subst w1. unfold after.
    destruct (invoke_ask_run ctx rest q net w Hq)
      as (headers & prints & tail & w' & -> & _ & Htail).
    rewrite Hc in Htail. by destruct Htail as (-> & _). }
  unfold after, trace. rewrite !invoke_clear_run.
  cbn [conversation_histories DEEPSEEK_MODEL DEEPSEEK_API_KEY].
  rewrite lookup_update_eq. cbn [fst snd].
  assert (delete ctx (update_conversation_history ctx q v
                        (conversation_histories w))
          = delete ctx (conversation_histories w)) as ->.
  { apply map_eq. intros c. destruct (decide (ctx = c)) as [<-|Hne].
    - by rewrite !lookup_delete_eq.
    - by rewrite !lookup_delete_ne, lookup_update_ne. }
  split; [|done].
  destruct (conversation_histories w !! ctx) eqn:Hctx; cbn; [done|].
  destruct w as [hs m k]. cbn in *. f_equal. by rewrite delete_id.
Qed.

Lemma clear_undoes_ask_witness :
  consume_rest "one" = Some "one"
  ∧ completion 3 "one" (answers "first") two_channels = Returned (JStr "first")
  ∧ after (invoke 3 Clear)
      (after (invoke 3 (Ask "one" (answers "first"))) two_channels)
    = two_channels.
Proof.
  assert (consume_rest "one" = Some "one") as Hq by reflexivity.
  assert (completion 3 "one" (answers "first") two_channels
          = Returned (JStr "first")) as Hc by reflexivity.
  split; [exact Hq|]. split; [exact Hc|].
  destruct (clear_undoes_ask 3 "one" "one" (answers "first") (JStr "first")
              two_channels Hq Hc) as (Hstate & _).
  rewrite Hstate. reflexivity.
Defined.
End Commands.
